(** * Naive Bayes text classifier ([bayesclassifier.py]): model and properties

    The Python class [NaiveBayesClassifier] is embedded as a record of its
    four attributes together with one Rocq function per method.

    - Python dictionaries are stdpp [gmap]s; a subscript [d[k]] on a missing
      key raises [KeyError], which is kept in the model.
    - Python integers are [Z].  The results of true division ([/], as in
      Python 3) and of the products and quotients of [text_likelihood] are
      Python floats.  A float is modelled by the rational it denotes, and
      every float operation rounds its exact result with the rounding
      function [rnd] of the format, an interface with two instances:
      [binary64] (round to nearest, ties to even, with gradual underflow:
      the arithmetic of CPython) and [exact] (no rounding), the
      idealisation in which the statements that do not name a rounding
      are made.  Results beyond the largest finite float (where Python
      gives [inf]) are outside the model.
    - Methods that only read the object return a [result]; methods that
      mutate it are state transformers that also return the state reached,
      so that the attributes left behind by a raised exception are visible.
    - The tokenizer (NLTK) is an external collaborator: it is an interface
      with the one guarantee the source gives, that of [list(set(...))]. *)

From Stdlib Require Import ZArith QArith Ascii String.
From stdpp Require Import gmap strings list fin_maps.

Close Scope Q_scope.
Local Open Scope Z_scope.

(** ** Exceptions and results *)

Inductive exn : Set := KeyError | IndexError | ZeroDivisionError.

Inductive result (A : Type) : Type :=
  | Ok (a : A)
  | Raise (e : exn).
Arguments Ok {A} a.
Arguments Raise {A} e.

#[global] Instance result_ret : MRet result := λ A a, Ok a.
#[global] Instance result_bind : MBind result := λ A B f r,
  match r with Ok a => f a | Raise e => Raise e end.

(** [for x in l: acc = f(acc, x)], stopping at the first exception. *)
Fixpoint foldlM {A B : Type} (f : B → A → result B) (b : B) (l : list A)
    : result B :=
  match l with
  | [] => Ok b
  | x :: l' => b' ← f b x; foldlM f b' l'
  end.

(** [sum(f(x) for x in l)]. *)
Definition py_sum {A : Type} (f : A → result Z) (l : list A) : result Z :=
  foldlM (λ acc x, v ← f x; Ok (acc + v)) 0 l.

(** [d[k]] *)
Definition getitem {V : Type} (d : gmap string V) (k : string) : result V :=
  match d !! k with
  | Some v => Ok v
  | None => Raise KeyError
  end.

(** ** Float arithmetic

    [rnd] maps the exact result of an operation to the float that the
    operation returns.  The two laws are those of every rounding to
    nearest: zero is a float, and rounding keeps the sign. *)

Class Rounding := {
  rnd : Q → Q;
  rnd_zero : ∀ x, (x == 0)%Q → (rnd x == 0)%Q;
  rnd_nonneg : ∀ x, (0 <= x)%Q → (0 <= rnd x)%Q
}.

(** No rounding: arithmetic on the rationals. *)
#[global] Program Instance exact : Rounding := {| rnd x := x |}.
Next Obligation. intros x Hx. exact Hx. Qed.
Next Obligation. intros x Hx. exact Hx. Qed.

(** IEEE 754 binary64, round to nearest, ties to even.  [b64_round_pos n d]
    rounds the positive rational [n/d]: [e] is the exponent of its binade,
    [q] the exponent of the unit in the last place (53 significant bits,
    and no less than 2^-1074, which gives the subnormals and the underflow
    to 0), [m] the integer nearest to [n/d / 2^q]. *)
Definition pow2 (e : Z) : Q :=
  if decide (0 ≤ e) then inject_Z (2 ^ e) else (1 # Z.to_pos (2 ^ (- e)))%Q.

Definition round_half_even (num den : Z) : Z :=
  let m0 := num / den in
  let r := num mod den in
  if decide (2 * r < den) then m0
  else if decide (den < 2 * r) then m0 + 1
  else if Z.even m0 then m0 else m0 + 1.

Definition b64_ulp_exponent (n d : positive) : Z :=
  let e0 := Z.log2 (Z.pos n) - Z.log2 (Z.pos d) in
  let e := if Qle_bool (pow2 e0) (Z.pos n # d) then e0 else e0 - 1 in
  Z.max e (-1022) - 52.

Definition b64_round_pos (n d : positive) : Q :=
  let q := b64_ulp_exponent n d in
  let num := if decide (0 ≤ q) then Z.pos n else Z.pos n * 2 ^ (- q) in
  let den := if decide (0 ≤ q) then Z.pos d * 2 ^ q else Z.pos d in
  (inject_Z (round_half_even num den) * pow2 q)%Q.

Definition rnd_b64 (x : Q) : Q :=
  match Qnum x with
  | Z0 => 0%Q
  | Z.pos n => b64_round_pos n (Qden x)
  | Z.neg n => (- b64_round_pos n (Qden x))%Q
  end.

Program Definition binary64 : Rounding := {| rnd := rnd_b64 |}.
Next Obligation.
  intros [n d] Hx. unfold Qeq in Hx. simpl in Hx.
  assert (n = 0) as -> by lia. done.
Qed.
Next Obligation.
  intros [n d] Hx. unfold Qle in Hx. simpl in Hx. unfold rnd_b64. simpl.
  destruct n as [|n|n]; [done| |lia].
  assert (Hrhe : ∀ num den, 0 ≤ num → 0 < den → 0 ≤ round_half_even num den).
  { intros num den Hnum Hden. unfold round_half_even.
    assert (0 ≤ num / den) by (by apply Z.div_pos).
    repeat case_decide; try destruct (Z.even _); lia. }
  unfold b64_round_pos. apply Qmult_le_0_compat.
  - unfold Qle. simpl. rewrite !Z.mul_1_r. apply Hrhe.
    + case_decide; [lia|]. apply Z.mul_nonneg_nonneg; [lia|].
      apply Z.pow_nonneg. lia.
    + case_decide; [|lia]. apply Z.mul_pos_pos; [lia|].
      by apply Z.pow_pos_nonneg.
  - unfold pow2. case_decide; [|done].
    unfold Qle. simpl. rewrite !Z.mul_1_r. apply Z.pow_nonneg. lia.
Qed.

(** [n / d] on integers: true division, correctly rounded. *)
Definition truediv `{Rounding} (n d : Z) : result Q :=
  if decide (d = 0) then Raise ZeroDivisionError
  else Ok (rnd (inject_Z n / inject_Z d))%Q.

(** [x / y] and [x * y] on floats. *)
Definition fdiv `{Rounding} (x y : Q) : result Q :=
  if Qeq_bool y 0 then Raise ZeroDivisionError else Ok (rnd (x / y))%Q.

Definition fmul `{Rounding} (x y : Q) : Q := rnd (x * y)%Q.

(** [x > y] and [x >= y] on numbers. *)
Definition Qgtb (x y : Q) : bool := negb (Qle_bool x y).
Definition Qgeb (x y : Q) : bool := Qle_bool y x.

(** An optional [category=None] argument is tested by truth value
    ([if category] / [if not category]): [None] and the empty string are
    both false.  [truthy_arg] gives the argument when it is true. *)
Definition truthy_arg (category : option string) : option string :=
  match category with
  | None => None
  | Some EmptyString => None
  | Some (String a r) => Some (String a r)
  end.

(** ** The tokenizer interface

    [tokenize] returns [list(set(...))]: a list without repetitions. *)

Class Tokenizer := {
  tokenize : string → list string;
  tokenize_NoDup : ∀ text, NoDup (tokenize text)
}.

(** ** The object *)

Record model : Type := Model {
  categories : list string;
  word_memo : gmap string (gmap string Z);
  document_count : gmap string Z;
  total_document_count : Z
}.

Definition set_word_memo (wm : gmap string (gmap string Z)) (s : model) : model :=
  Model (categories s) wm (document_count s) (total_document_count s).
Definition set_document_count (dc : gmap string Z) (s : model) : model :=
  Model (categories s) (word_memo s) dc (total_document_count s).
Definition set_total_document_count (n : Z) (s : model) : model :=
  Model (categories s) (word_memo s) (document_count s) n.

(** [__init__]; [init_step] is the body of its loop. *)
Definition init_step (s : model) (category : string) : model :=
  set_document_count (<[category := 0]> (document_count s))
    (set_word_memo (<[category := ∅]> (word_memo s)) s).

Definition init (cats : list string) : model :=
  foldl init_step (Model cats ∅ ∅ 0) cats.

(** ** State transformers for the mutating methods *)

Definition M (A : Type) : Type := model → result A * model.

#[global] Instance M_ret : MRet M := λ A a s, (Ok a, s).
#[global] Instance M_bind : MBind M := λ A B f m s,
  match m s with
  | (Ok a, s') => f a s'
  | (Raise e, s') => (Raise e, s')
  end.

Definition read {A : Type} (f : model → result A) : M A := λ s, (f s, s).
Definition modify (f : model → model) : M unit := λ s, (Ok (), f s).

(** [for x in l: acc = body(acc, x)] where the body mutates the object. *)
Fixpoint foldlMM {A B : Type} (f : B → A → M B) (b : B) (l : list A) : M B :=
  match l with
  | [] => mret b
  | x :: l' => b' ← f b x; foldlMM f b' l'
  end.

Definition for_each {A : Type} (l : list A) (body : A → M unit) : M unit :=
  foldlMM (λ _ x, body x) () l.

(** ** Frequency store: read accessors *)

Definition dict_keys (d : gmap string Z) : list string := (map_to_list d).*1.
Definition dict_values_sum (d : gmap string Z) : Z :=
  foldl (λ acc kv, acc + kv.2) 0 (map_to_list d).

(** [total_word_count] *)
Definition total_word_count (category : option string) (s : model) : result Z :=
  match truthy_arg category with
  | None =>
      foldlM (λ word_count category,
                d ← getitem (word_memo s) category;
                Ok (word_count + dict_values_sum d)) 0 (categories s)
  | Some c => d ← getitem (word_memo s) c; Ok (dict_values_sum d)
  end.

(** [vocab_size] *)
Definition vocab_size (category : option string) (s : model) : result Z :=
  match truthy_arg category with
  | None =>
      vocab_set ← foldlM (λ (vocab_set : gset string) cat,
                            d ← getitem (word_memo s) cat;
                            Ok (vocab_set ∪ dom d)) ∅ (categories s);
      Ok (Z.of_nat (size vocab_set))
  | Some c => d ← getitem (word_memo s) c; Ok (Z.of_nat (length (dict_keys d)))
  end.

(** [word_count] *)
Definition word_count (word category : string) (s : model) : result Z :=
  d ← getitem (word_memo s) category;
  match d !! word with
  | None => Ok 0
  | Some n => Ok n
  end.

(** ** Probability engine *)

(** [category_probability] *)
Definition category_probability `{Rounding} (category : string) (s : model) : result Q :=
  n ← getitem (document_count s) category;
  d ← py_sum (λ cat, getitem (document_count s) cat) (categories s);
  truediv n d.

(** [word_probability_category] *)
Definition word_probability_category `{Rounding} (word category : string) (s : model)
    : result Q :=
  dc ← getitem (document_count s) category;
  if decide (0 < dc) then
    wc ← word_count word category s;
    dc' ← getitem (document_count s) category;
    truediv wc dc'
  else Ok 0%Q.

(** [word_probability] *)
Definition word_probability `{Rounding} (word : string) (s : model) : result Q :=
  n ← py_sum (λ cat, word_count word cat s) (categories s);
  truediv n (total_document_count s).

(** [text_likelihood] *)
Definition text_likelihood `{Rounding} (bag_of_words : list string) (category : string)
    (s : model) : result Q :=
  score ← foldlM (λ score word,
                    word_prob ← word_probability word s;
                    word_cat_probability ← word_probability_category word category s;
                    if Qgtb word_prob 0 && Qgtb word_cat_probability 0 then
                      r ← fdiv word_cat_probability word_prob;
                      Ok (fmul score r)
                    else Ok score) 1%Q bag_of_words;
  p ← category_probability category s;
  Ok (fmul score p).

(** [classify] *)
Definition classify `{Tokenizer} `{Rounding} (text : string) (s : model)
    : result (string * Q) :=
  let bag_of_words := tokenize text in
  match categories s with
  | [] => Raise IndexError
  | first :: _ =>
      foldlM (λ '(max_category, max_likelihood) category,
                likelihood ← text_likelihood bag_of_words category s;
                if Qgtb likelihood max_likelihood then Ok (category, likelihood)
                else Ok (max_category, max_likelihood))
             (first, 0%Q) (categories s)
  end.

(** ** Trainer *)

(** [add_word] *)
Definition add_word (word category : string) : M unit :=
  d ← read (λ s, getitem (word_memo s) category);
  match d !! word with
  | None =>
      modify (λ s, set_word_memo (<[category := <[word := 1]> d]> (word_memo s)) s)
  | Some n =>
      modify (λ s, set_word_memo (<[category := <[word := n + 1]> d]> (word_memo s)) s)
  end.

(** [train] *)
Definition train `{Tokenizer} (text category : string) : M unit :=
  n ← read (λ s, getitem (document_count s) category);
  modify (λ s, set_document_count (<[category := n + 1]> (document_count s)) s);;
  modify (λ s, set_total_document_count (total_document_count s + 1) s);;
  for_each (tokenize text) (λ word, add_word word category).

(** ** Removal and pruning *)

Definition pop_word (word cat : string) : M unit :=
  d ← read (λ s, getitem (word_memo s) cat);
  modify (λ s, set_word_memo (<[cat := delete word d]> (word_memo s)) s).

(** [remove_word] *)
Definition remove_word (word : string) (category : option string) : M unit :=
  match truthy_arg category with
  | Some c => pop_word word c
  | None => cats ← read (λ s, Ok (categories s)); for_each cats (pop_word word)
  end.

(** [cleanup]; the count that the method prints is its result here.
    [scan_category] is the loop that collects [to_remove] for one category,
    [cleanup_category] the body of the loop over the categories. *)
Definition scan_category `{Rounding} (threshold : Q) (d : gmap string Z) (s : model)
    : result (gset string) :=
  foldlM (λ (to_remove : gset string) word,
            p ← word_probability word s;
            if Qgeb p threshold then Ok (to_remove ∪ {[word]})
            else Ok to_remove) ∅ (dict_keys d).

Definition cleanup_category `{Rounding} (threshold : Q) (removed_count : Z) (cat : string)
    : M Z :=
  d ← read (λ s, getitem (word_memo s) cat);
  to_remove ← read (scan_category threshold d);
  foldlMM (λ removed_count word,
             remove_word word None;; mret (removed_count + 1))
          removed_count (elements to_remove).

Definition cleanup `{Rounding} (threshold : Q) : M Z :=
  cats ← read (λ s, Ok (categories s));
  foldlMM (cleanup_category threshold) 0 cats.

(** ** A concrete tokenizer

    Words are the maximal runs of characters other than the space;
    repetitions are dropped. *)

Fixpoint split_words (cur : string) (text : string) : list string :=
  match text with
  | EmptyString => match cur with EmptyString => [] | _ => [cur] end
  | String a rest =>
      if Ascii.eqb a " "%char then
        match cur with
        | EmptyString => split_words EmptyString rest
        | _ => cur :: split_words EmptyString rest
        end
      else split_words (cur +:+ String a EmptyString) rest
  end.

#[global] Program Instance space_tokenizer : Tokenizer :=
  {| tokenize text := remove_dups (split_words EmptyString text) |}.
Next Obligation. intros text. apply NoDup_remove_dups. Qed.

(** ** Runs of calls and scenario objects *)

(** A training run: [train(text, category)] for each labelled document. *)
Definition train_all `{Tokenizer} (docs : list (string * string)) : M unit :=
  for_each docs (λ d, train d.1 d.2).

(** A call of one of the mutating methods; [run_ops] gives the object left
    behind by a sequence of calls, whether each returned or raised. *)
Inductive op : Type :=
  | Train (text category : string)
  | RemoveWord (word : string) (category : option string)
  | Cleanup (threshold : Q).

Definition run_op `{Tokenizer} `{Rounding} (o : op) (s : model) : model :=
  match o with
  | Train text category => (train text category s).2
  | RemoveWord word category => (remove_word word category s).2
  | Cleanup threshold => (cleanup threshold s).2
  end.

Definition run_ops `{Tokenizer} `{Rounding} (ops : list op) (s : model) : model :=
  foldl (λ s o, run_op o s) s ops.

Definition spam_ham : model :=
  (train_all [("free money now", "spam"); ("meeting agenda", "ham")]
     (init ["spam"; "ham"])).2.

Definition free_model : model :=
  (train_all [("free money", "spam"); ("free lunch", "ham")]
     (init ["spam"; "ham"])).2.

Definition blank_ham : model :=
  (train_all [("x y", EmptyString); ("x z", "ham")]
     (init [EmptyString; "ham"])).2.


(** Five documents: [x] occurs in one of three spam documents and in one
    of two ham documents. *)
Definition tie_model : model :=
  (train_all [("x", "spam"); ("a", "spam"); ("b", "spam");
              ("x", "ham"); ("c", "ham")]
     (init ["spam"; "ham"])).2.

(** A long document.  [numbered p n] is the list of the tokens [p0 ..
    p(n-1)].  Each of two categories gets 16 documents; the tokens [u..]
    occur in every document of [a] and in one of [b], the tokens [v..] the
    other way round. *)
Fixpoint decimal (fuel : nat) (n : N) (acc : string) : string :=
  match fuel with
  | O => acc
  | S fuel' =>
      let acc' := String (ascii_of_N (48 + n mod 10)) acc in
      if (n / 10 =? 0)%N then acc' else decimal fuel' (n / 10) acc'
  end.

Fixpoint numbered (p : string) (n : nat) : list string :=
  match n with
  | O => []
  | S k => numbered p k ++ [p +:+ decimal 20 (N.of_nat k) EmptyString]
  end.

Definition join_words (l : list string) : string :=
  foldr (λ w acc, w +:+ String " "%char acc) EmptyString l.

Definition long_text : string :=
  join_words (numbered "u" 500 ++ numbered "v" 500).

Definition long_docs : list (string * string) :=
  (long_text, "a") :: replicate 15 (join_words (numbered "u" 500), "a")
  ++ (long_text, "b") :: replicate 15 (join_words (numbered "v" 500), "b").

Definition long_model : model := (train_all long_docs (init ["a"; "b"])).2.

(** ** Pure views of the store and well-formed states *)

(** [document_count[c]] and [word_memo[c][t]], absent entries read as 0. *)
Definition dc (s : model) (c : string) : Z := default 0 (document_count s !! c).
Definition wc (s : model) (t c : string) : Z :=
  default 0 (word_memo s !! c ≫= λ d, d !! t).

Definition sumZ {A : Type} (f : A → Z) (l : list A) : Z :=
  foldr (λ x acc, f x + acc) 0 l.

(** Both dictionaries have exactly the configured categories as keys. *)
Record keys_ok (s : model) : Prop := {
  keys_wm : ∀ c, c ∈ categories s ↔ is_Some (word_memo s !! c);
  keys_dc : ∀ c, c ∈ categories s ↔ is_Some (document_count s !! c)
}.

(** The invariants of the data model, for a model built from a list of
    distinct categories. *)
Record wf (s : model) : Prop := {
  wf_keys : keys_ok s;
  wf_NoDup : NoDup (categories s);
  wf_total : sumZ (dc s) (categories s) = total_document_count s;
  wf_bound : ∀ t c, 0 ≤ wc s t c ≤ dc s c
}.

(** What [word_count(t, c) ≤ document_count[c]] needs of a state; it does
    not ask for distinct categories. *)
Definition bounded (s : model) : Prop :=
  keys_ok s ∧ ∀ t c, 0 ≤ wc s t c ≤ dc s c.

(** The mapping of a category after the loop of [train] over a bag. *)
Definition incr_word (w : string) (d : gmap string Z) : gmap string Z :=
  <[w := default 0 (d !! w) + 1]> d.

Definition incr_words (bag : list string) (d : gmap string Z) : gmap string Z :=
  foldl (λ d w, incr_word w d) d bag.

(** [pruned s s']: [s'] is [s] with some word entries deleted. *)
Record pruned (s s' : model) : Prop := {
  pruned_categories : categories s' = categories s;
  pruned_document_count : document_count s' = document_count s;
  pruned_total : total_document_count s' = total_document_count s;
  pruned_keys : ∀ c, is_Some (word_memo s' !! c) ↔ is_Some (word_memo s !! c);
  pruned_wc : ∀ t c, wc s' t c = wc s t c ∨ wc s' t c = 0
}.

(** ** The estimators and the score as the specification defines them *)

Definition categoryPrior (s : model) (c : string) : Q :=
  (inject_Z (dc s c) / inject_Z (total_document_count s))%Q.

Definition wordLikelihoodGivenCategory (s : model) (t c : string) : Q :=
  if decide (0 < dc s c) then (inject_Z (wc s t c) / inject_Z (dc s c))%Q
  else 0%Q.

Definition marginalWordProbability (s : model) (t : string) : Q :=
  (inject_Z (sumZ (wc s t) (categories s))
   / inject_Z (total_document_count s))%Q.

(** A token is informative for a category when both of its probabilities
    are strictly positive; its factor is then their ratio. *)
Definition informative (s : model) (c t : string) : bool :=
  Qgtb (marginalWordProbability s t) 0
  && Qgtb (wordLikelihoodGivenCategory s t c) 0.

Definition ratio (s : model) (c t : string) : Q :=
  (wordLikelihoodGivenCategory s t c / marginalWordProbability s t)%Q.


(** The loop of [text_likelihood] and of [classify], without exceptions. *)
Definition score_step (s : model) (c : string) (score : Q) (t : string) : Q :=
  if informative s c t then (score * ratio s c t)%Q else score.

Definition score_of (s : model) (bag : list string) (c : string) : Q :=
  (foldl (score_step s c) 1%Q bag * categoryPrior s c)%Q.

(** The same, with the rounding of each float operation. *)
Definition rounded_prior `{Rounding} (s : model) (c : string) : Q :=
  rnd (inject_Z (dc s c) / inject_Z (total_document_count s))%Q.

Definition rounded_likelihood `{Rounding} (s : model) (t c : string) : Q :=
  if decide (0 < dc s c) then rnd (inject_Z (wc s t c) / inject_Z (dc s c))%Q
  else 0%Q.

Definition rounded_marginal `{Rounding} (s : model) (t : string) : Q :=
  rnd (inject_Z (sumZ (wc s t) (categories s))
       / inject_Z (total_document_count s))%Q.

Definition rounded_score_step `{Rounding} (s : model) (c : string) (score : Q)
    (t : string) : Q :=
  if Qgtb (rounded_marginal s t) 0 && Qgtb (rounded_likelihood s t c) 0
  then fmul score (rnd (rounded_likelihood s t c / rounded_marginal s t)%Q)
  else score.

Definition rounded_score `{Rounding} (s : model) (bag : list string)
    (c : string) : Q :=
  fmul (foldl (rounded_score_step s c) 1%Q bag) (rounded_prior s c).

Definition argmax_step (score : string → Q) (best : string * Q) (c : string)
    : string * Q :=
  if Qgtb (score c) best.2 then (c, score c) else best.


(** ** What [cleanup] removes *)

(** A mapping, and the whole store, without the tokens of [R]. *)
Definition prune_dict (R : gset string) (d : gmap string Z) : gmap string Z :=
  filter (λ kv, kv.1 ∉ R) d.

Definition prune (R : gset string) (wm : gmap string (gmap string Z))
    : gmap string (gmap string Z) :=
  prune_dict R <$> wm.

(** [heavy threshold s t]: the marginal probability of [t] reaches the
    threshold. *)
Definition heavy (threshold : Q) (s : model) (t : string) : bool :=
  Qgeb (marginalWordProbability s t) threshold.

(** The tokens stored for the categories of [l], and the heavy ones. *)
Definition vocab_in (s : model) (l : list string) : gset string :=
  ⋃ ((λ c, dom (default ∅ (word_memo s !! c))) <$> l).

Definition heavy_in (threshold : Q) (s : model) (l : list string) : gset string :=
  filter (λ t, heavy threshold s t = true) (vocab_in s l).

(** ** Basic facts about the loops *)

Lemma foldlM_pure {A B : Type} (f : B → A → result B) (g : B → A → B) l b :
  (∀ b x, x ∈ l → f b x = Ok (g b x)) → foldlM f b l = Ok (foldl g b l).
Proof.
  revert b. induction l as [|x l IH]; intros b Hf; simpl; [done|].
  rewrite Hf by left. simpl. apply IH. intros b' y Hy. apply Hf. by right.
Qed.

Lemma foldl_add_sumZ {A : Type} (g : A → Z) l acc :
  foldl (λ acc x, acc + g x) acc l = acc + sumZ g l.
Proof.
  revert acc. induction l as [|x l IH]; intros acc; simpl; [lia|].
  rewrite IH. lia.
Qed.

Lemma py_sum_pure {A : Type} (f : A → result Z) (g : A → Z) l :
  (∀ x, x ∈ l → f x = Ok (g x)) → py_sum f l = Ok (sumZ g l).
Proof.
  intros Hf. unfold py_sum.
  rewrite (foldlM_pure _ (λ acc x, acc + g x)).
  - by rewrite foldl_add_sumZ.
  - intros b x Hx. by rewrite Hf.
Qed.

Lemma sumZ_ext {A : Type} (f g : A → Z) l :
  (∀ x, x ∈ l → f x = g x) → sumZ f l = sumZ g l.
Proof.
  induction l as [|x l IH]; intros Hfg; simpl; [done|].
  rewrite Hfg by left. rewrite IH; [done|]. intros y Hy. apply Hfg. by right.
Qed.

Lemma sumZ_nonneg {A : Type} (f : A → Z) l :
  (∀ x, x ∈ l → 0 ≤ f x) → 0 ≤ sumZ f l.
Proof.
  induction l as [|x l IH]; intros Hf; simpl; [done|].
  assert (0 ≤ f x) by (apply Hf; left).
  assert (0 ≤ sumZ f l) by (apply IH; intros y Hy; apply Hf; by right).
  lia.
Qed.

(** Changing [f] at one point of a duplicate-free list. *)
Lemma sumZ_update (f g : string → Z) l c δ :
  NoDup l → c ∈ l → g c = f c + δ → (∀ x, x ≠ c → g x = f x) →
  sumZ g l = sumZ f l + δ.
Proof.
  intros Hnd Hc Hgc Hg. induction Hnd as [|x l Hx Hnd IH]; simpl.
  { by apply elem_of_nil in Hc. }
  apply elem_of_cons in Hc as [<-|Hc].
  - rewrite Hgc. rewrite (sumZ_ext g f l); [lia|].
    intros y Hy. apply Hg. intros ->. done.
  - rewrite IH by done. rewrite Hg; [lia|]. intros ->. done.
Qed.

(** ** Reading a well-keyed store *)

Lemma getitem_dc s c :
  keys_ok s → c ∈ categories s → getitem (document_count s) c = Ok (dc s c).
Proof.
  intros Hk Hc. apply (keys_dc _ Hk) in Hc as [n Hn].
  unfold getitem, dc. by rewrite Hn.
Qed.

Lemma word_count_pure s t c :
  keys_ok s → c ∈ categories s → word_count t c s = Ok (wc s t c).
Proof.
  intros Hk Hc. apply (keys_wm _ Hk) in Hc as [d Hd].
  unfold word_count, wc, getitem. rewrite Hd. simpl. by destruct (d !! t).
Qed.

Lemma py_sum_dc s :
  keys_ok s →
  py_sum (λ cat, getitem (document_count s) cat) (categories s)
  = Ok (sumZ (dc s) (categories s)).
Proof. intros Hk. apply py_sum_pure. intros c Hc. by apply getitem_dc. Qed.

Lemma py_sum_wc s t :
  keys_ok s →
  py_sum (λ cat, word_count t cat s) (categories s)
  = Ok (sumZ (wc s t) (categories s)).
Proof. intros Hk. apply py_sum_pure. intros c Hc. by apply word_count_pure. Qed.

(** ** The trainer, step by step *)

Lemma set_word_memo_id s d c :
  word_memo s !! c = Some d → set_word_memo (<[c := d]> (word_memo s)) s = s.
Proof. intros Hd. rewrite insert_id by done. by destruct s. Qed.

Lemma add_word_ok w c s d :
  word_memo s !! c = Some d →
  add_word w c s
  = (Ok (), set_word_memo (<[c := incr_word w d]> (word_memo s)) s).
Proof.
  intros Hd. unfold add_word, mbind, M_bind, read, getitem, incr_word.
  rewrite Hd. by destruct (d !! w).
Qed.

Lemma add_words_ok bag c s d :
  word_memo s !! c = Some d →
  for_each bag (λ word, add_word word c) s
  = (Ok (), set_word_memo (<[c := incr_words bag d]> (word_memo s)) s).
Proof.
  revert s d. induction bag as [|w bag IH]; intros s d Hd.
  - simpl. unfold mret, M_ret. by rewrite set_word_memo_id.
  - unfold for_each in *. simpl. unfold mbind, M_bind at 1.
    rewrite (add_word_ok _ _ _ d) by done.
    rewrite (IH _ (incr_word w d)) by (simpl; apply lookup_insert_eq).
    simpl. by rewrite insert_insert_eq.
Qed.

Lemma incr_words_lookup bag d t :
  NoDup bag →
  incr_words bag d !! t
  = if decide (t ∈ bag) then Some (default 0 (d !! t) + 1) else d !! t.
Proof.
  intros Hnd. revert d. induction Hnd as [|w bag Hw Hnd IH]; intros d.
  - rewrite decide_False by apply not_elem_of_nil. done.
  - change (incr_words (w :: bag) d) with (incr_words bag (incr_word w d)).
    rewrite IH. unfold incr_word.
    destruct (decide (t = w)) as [->|Hne].
    + rewrite decide_False by done. rewrite decide_True by left.
      by rewrite lookup_insert_eq.
    + rewrite lookup_insert_ne by done.
      destruct (decide (t ∈ bag)) as [Ht|Ht].
      * rewrite decide_True by (by right). done.
      * rewrite decide_False; [done|]. intros [?|?]%elem_of_cons; done.
Qed.

Section trainer.
Context `{Tokenizer}.

Lemma train_invalid text c s :
  document_count s !! c = None → train text c s = (Raise KeyError, s).
Proof.
  intros Hc. unfold train, mbind, M_bind, read, getitem. by rewrite Hc.
Qed.

Lemma train_ok text c s n d :
  document_count s !! c = Some n → word_memo s !! c = Some d →
  train text c s
  = (Ok (), Model (categories s)
                  (<[c := incr_words (tokenize text) d]> (word_memo s))
                  (<[c := n + 1]> (document_count s))
                  (total_document_count s + 1)).
Proof.
  intros Hn Hd. unfold train, mbind, M_bind, read, modify, getitem.
  rewrite Hn. by rewrite (add_words_ok _ _ _ d).
Qed.
End trainer.

(** ** Removal only prunes *)

Lemma pruned_refl s : pruned s s.
Proof. split; auto. Qed.

Lemma pruned_trans s1 s2 s3 : pruned s1 s2 → pruned s2 s3 → pruned s1 s3.
Proof.
  intros [Hc1 Hd1 Ht1 Hk1 Hw1] [Hc2 Hd2 Ht2 Hk2 Hw2]. split.
  - congruence.
  - congruence.
  - congruence.
  - intros c. by rewrite Hk2.
  - intros t c. destruct (Hw2 t c) as [->| ->]; auto.
Qed.

(** A property of the state reached that every step maintains is
    maintained by binds and loops. *)
Section maintained.
Context (R : model → model → Prop).
Hypothesis R_refl : ∀ s, R s s.
Hypothesis R_trans : ∀ s1 s2 s3, R s1 s2 → R s2 s3 → R s1 s3.

Lemma bind_maintains {A B : Type} (m : M A) (k : A → M B) s :
  R s (m s).2 → (∀ a s', R s' (k a s').2) → R s ((m ≫= k) s).2.
Proof.
  intros Hm Hk. unfold mbind, M_bind.
  destruct (m s) as [[a|e] s'] eqn:E; simpl in *; [|done].
  by apply R_trans with s'.
Qed.

Lemma foldlMM_maintains {A B : Type} (f : B → A → M B) l b s :
  (∀ b x s', R s' (f b x s').2) → R s (foldlMM f b l s).2.
Proof.
  intros Hf. revert b s. induction l as [|x l IH]; intros b s; simpl.
  - apply R_refl.
  - apply bind_maintains; [apply Hf|]. intros a s'. apply IH.
Qed.
End maintained.

Lemma wc_set_word_memo_ne s c d t c' :
  c' ≠ c → wc (set_word_memo (<[c := d]> (word_memo s)) s) t c' = wc s t c'.
Proof. intros Hne. unfold wc. simpl. by rewrite lookup_insert_ne. Qed.

Lemma wc_set_word_memo_eq s c d t :
  wc (set_word_memo (<[c := d]> (word_memo s)) s) t c = default 0 (d !! t).
Proof. unfold wc. simpl. by rewrite lookup_insert_eq. Qed.

Lemma is_Some_insert_present {V : Type} (m : gmap string V) c v c' :
  is_Some (m !! c) → is_Some (<[c := v]> m !! c') ↔ is_Some (m !! c').
Proof.
  intros Hc. destruct (decide (c = c')) as [<-|Hne].
  - rewrite lookup_insert_eq. split; eauto.
  - by rewrite lookup_insert_ne.
Qed.

Lemma pop_word_ok w c s d :
  word_memo s !! c = Some d →
  pop_word w c s = (Ok (), set_word_memo (<[c := delete w d]> (word_memo s)) s).
Proof.
  intros Hd. unfold pop_word, mbind, M_bind, read, modify, getitem.
  by rewrite Hd.
Qed.

Lemma pop_word_missing w c s :
  word_memo s !! c = None → pop_word w c s = (Raise KeyError, s).
Proof.
  intros Hd. unfold pop_word, mbind, M_bind, read, getitem. by rewrite Hd.
Qed.

Lemma pop_word_pruned w c s : pruned s (pop_word w c s).2.
Proof.
  destruct (word_memo s !! c) as [d|] eqn:Hd.
  - rewrite (pop_word_ok _ _ _ d) by done. simpl. split; simpl; auto.
    + intros c'. apply is_Some_insert_present. eauto.
    + intros t c'. destruct (decide (c' = c)) as [->|Hne].
      * rewrite wc_set_word_memo_eq. unfold wc. rewrite Hd. simpl.
        destruct (decide (t = w)) as [->|Hne].
        -- right. by rewrite lookup_delete_eq.
        -- left. by rewrite lookup_delete_ne.
      * left. by apply wc_set_word_memo_ne.
  - rewrite pop_word_missing by done. apply pruned_refl.
Qed.

Lemma remove_word_pruned w category s : pruned s (remove_word w category s).2.
Proof.
  unfold remove_word. destruct (truthy_arg category) as [c|].
  - apply pop_word_pruned.
  - apply (bind_maintains pruned pruned_trans); [apply pruned_refl|].
    intros cats s'. apply (foldlMM_maintains pruned pruned_refl pruned_trans).
    intros _ x s''. apply pop_word_pruned.
Qed.

Lemma cleanup_pruned threshold s : pruned s (cleanup threshold s).2.
Proof.
  unfold cleanup.
  apply (bind_maintains pruned pruned_trans); [apply pruned_refl|].
  intros cats s1. apply (foldlMM_maintains pruned pruned_refl pruned_trans).
  intros n cat s2. unfold cleanup_category.
  apply (bind_maintains pruned pruned_trans); [apply pruned_refl|].
  intros d s3.
  apply (bind_maintains pruned pruned_trans); [apply pruned_refl|].
  intros to_remove s4.
  apply (foldlMM_maintains pruned pruned_refl pruned_trans).
  intros n' w s5.
  apply (bind_maintains pruned pruned_trans); [apply remove_word_pruned|].
  intros [] s6. apply pruned_refl.
Qed.

(** ** The constructor *)

Lemma init_fold l s0 :
  let s := foldl init_step s0 l in
  categories s = categories s0 ∧
  total_document_count s = total_document_count s0 ∧
  (∀ c, word_memo s !! c
        = if decide (c ∈ l) then Some ∅ else word_memo s0 !! c) ∧
  (∀ c, document_count s !! c
        = if decide (c ∈ l) then Some 0 else document_count s0 !! c).
Proof.
  revert s0. induction l as [|x l IH]; intros s0; simpl.
  - repeat split; intros c; by rewrite decide_False by apply not_elem_of_nil.
  - destruct (IH (init_step s0 x)) as (Hc & Ht & Hw & Hd).
    repeat split; [done|done|..]; intros c; rewrite ?Hw, ?Hd; simpl.
    + destruct (decide (c ∈ l)) as [Hl|Hl].
      * by rewrite decide_True by (by right).
      * destruct (decide (c = x)) as [->|Hne].
        -- rewrite lookup_insert_eq. by rewrite decide_True by left.
        -- rewrite lookup_insert_ne by done.
           rewrite decide_False; [done|]. by intros [?|?]%elem_of_cons.
    + destruct (decide (c ∈ l)) as [Hl|Hl].
      * by rewrite decide_True by (by right).
      * destruct (decide (c = x)) as [->|Hne].
        -- rewrite lookup_insert_eq. by rewrite decide_True by left.
        -- rewrite lookup_insert_ne by done.
           rewrite decide_False; [done|]. by intros [?|?]%elem_of_cons.
Qed.

Lemma init_spec cats :
  categories (init cats) = cats ∧
  total_document_count (init cats) = 0 ∧
  (∀ c, word_memo (init cats) !! c = if decide (c ∈ cats) then Some ∅ else None) ∧
  (∀ c, document_count (init cats) !! c
        = if decide (c ∈ cats) then Some 0 else None).
Proof.
  destruct (init_fold cats (Model cats ∅ ∅ 0)) as (Hc & Ht & Hw & Hd).
  repeat split; [done|done|..]; intros c; unfold init; rewrite ?Hw, ?Hd; simpl;
    by rewrite lookup_empty.
Qed.

Lemma init_keys_ok cats : keys_ok (init cats).
Proof.
  destruct (init_spec cats) as (Hc & _ & Hw & Hd).
  split; intros c; rewrite Hc, ?Hw, ?Hd; case_decide; split; intros Hs;
    first [by eauto | by apply is_Some_None in Hs].
Qed.

Lemma init_wc cats t c : wc (init cats) t c = 0.
Proof.
  destruct (init_spec cats) as (_ & _ & Hw & _).
  unfold wc. rewrite Hw. by case_decide.
Qed.

Lemma init_dc cats c : dc (init cats) c = 0.
Proof.
  destruct (init_spec cats) as (_ & _ & _ & Hd).
  unfold dc. rewrite Hd. by case_decide.
Qed.

Lemma sumZ_zero {A : Type} (f : A → Z) l : (∀ x, f x = 0) → sumZ f l = 0.
Proof. intros Hf. induction l as [|x l IH]; simpl; [done|]. rewrite Hf. lia. Qed.

Lemma init_wf cats : NoDup cats → wf (init cats).
Proof.
  intros Hnd. pose proof (init_spec cats) as (Hc & Ht & _ & _). split.
  - apply init_keys_ok.
  - by rewrite Hc.
  - rewrite Ht. apply sumZ_zero, init_dc.
  - intros t c. rewrite init_wc, init_dc. lia.
Qed.

(** ** Effect of a training call on the counts *)

Section trainer_effect.
Context `{Tokenizer}.

Lemma train_invalid_category text c s :
  keys_ok s → c ∉ categories s → train text c s = (Raise KeyError, s).
Proof.
  intros Hk Hc. apply train_invalid.
  destruct (document_count s !! c) eqn:E; [|done].
  exfalso. apply Hc, (keys_dc _ Hk). eauto.
Qed.

Lemma train_effect text c s :
  keys_ok s → c ∈ categories s →
  ∃ s', train text c s = (Ok (), s') ∧
        categories s' = categories s ∧
        keys_ok s' ∧
        total_document_count s' = total_document_count s + 1 ∧
        (∀ c', dc s' c' = if decide (c' = c) then dc s c + 1 else dc s c') ∧
        (∀ t c', wc s' t c'
                 = if decide (c' = c ∧ t ∈ tokenize text)
                   then wc s t c' + 1 else wc s t c').
Proof.
  intros Hk Hc.
  destruct (proj1 (keys_dc _ Hk c) Hc) as [n Hn].
  destruct (proj1 (keys_wm _ Hk c) Hc) as [d Hd].
  eexists. split; [by apply (train_ok _ _ _ n d)|]. simpl.
  split; [done|]. split; [|split; [done|split]].
  - split; intros c'; simpl.
    + rewrite (keys_wm _ Hk). symmetry. apply is_Some_insert_present. eauto.
    + rewrite (keys_dc _ Hk). symmetry. apply is_Some_insert_present. eauto.
  - intros c'. unfold dc. simpl. destruct (decide (c' = c)) as [->|Hne].
    + rewrite lookup_insert_eq, Hn. done.
    + by rewrite lookup_insert_ne.
  - intros t c'. unfold wc. simpl. destruct (decide (c' = c)) as [->|Hne].
    + rewrite lookup_insert_eq, Hd. simpl.
      rewrite incr_words_lookup by apply tokenize_NoDup.
      destruct (decide (t ∈ tokenize text)).
      * by rewrite decide_True.
      * rewrite decide_False; [done|]. by intros [_ ?].
    + rewrite lookup_insert_ne by done.
      rewrite decide_False; [done|]. by intros [? _].
Qed.

Lemma train_wf text c s s' :
  wf s → train text c s = (Ok (), s') → wf s'.
Proof.
  intros [Hk Hnd Ht Hb] Htr.
  destruct (decide (c ∈ categories s)) as [Hc|Hc].
  2:{ rewrite train_invalid_category in Htr by done. done. }
  destruct (train_effect text c s Hk Hc) as (s1 & E & Hcs & Hk' & Ht' & Hdc & Hwc).
  rewrite E in Htr. injection Htr as <-. split.
  - done.
  - by rewrite Hcs.
  - rewrite Hcs, Ht', <- Ht.
    apply sumZ_update with c; [done|done|..].
    + rewrite Hdc. by rewrite decide_True.
    + intros x Hx. rewrite Hdc. by rewrite decide_False.
  - intros t c'. rewrite Hwc, Hdc. specialize (Hb t c').
    destruct (decide (c' = c)) as [->|Hne']; case_decide as Hin; try lia.
    by destruct Hin.
Qed.
End trainer_effect.

(** ** Pruning keeps the invariants *)

Lemma pruned_keys_ok s s' : keys_ok s → pruned s s' → keys_ok s'.
Proof.
  intros [Hw Hd] [Hc Hdc _ Hk _]. split; intros c.
  - by rewrite Hc, Hk.
  - by rewrite Hc, Hdc.
Qed.

Lemma pruned_dc s s' c : pruned s s' → dc s' c = dc s c.
Proof. intros Hp. unfold dc. by rewrite (pruned_document_count _ _ Hp). Qed.

Lemma pruned_wf s s' : wf s → pruned s s' → wf s'.
Proof.
  intros [Hk Hnd Ht Hb] Hp. pose proof Hp as [Hc Hdc Htot _ Hwc]. split.
  - by apply pruned_keys_ok with s.
  - by rewrite Hc.
  - rewrite Hc, Htot, <- Ht. apply sumZ_ext. intros c _. by apply pruned_dc.
  - intros t c. rewrite (pruned_dc s s') by done.
    specialize (Hb t c). destruct (Hwc t c) as [->| ->]; lia.
Qed.

Lemma pruned_bounded s s' : bounded s → pruned s s' → bounded s'.
Proof.
  intros [Hk Hb] Hp. split; [by apply pruned_keys_ok with s|].
  intros t c. rewrite (pruned_dc s s') by done.
  specialize (Hb t c). destruct (pruned_wc _ _ Hp t c) as [->| ->]; lia.
Qed.

(** ** Runs of calls *)

Section runs.
Context `{Tokenizer}.

Lemma train_bounded text c s : bounded s → bounded (train text c s).2.
Proof.
  intros [Hk Hb]. destruct (decide (c ∈ categories s)) as [Hc|Hc].
  2:{ by rewrite train_invalid_category. }
  destruct (train_effect text c s Hk Hc) as (s1 & E & _ & Hk' & _ & Hdc & Hwc).
  rewrite E. simpl. split; [done|].
  intros t c'. rewrite Hwc, Hdc. specialize (Hb t c').
  destruct (decide (c' = c)) as [->|Hne']; case_decide as Hin; try lia.
  by destruct Hin.
Qed.

Lemma run_op_bounded o s :
  bounded s → bounded (run_op o s) ∧ categories (run_op o s) = categories s.
Proof.
  intros Hb. destruct o as [text c|w category|threshold]; simpl.
  - split; [by apply train_bounded|].
    destruct Hb as [Hk _]. destruct (decide (c ∈ categories s)) as [Hc|Hc].
    + destruct (train_effect text c s Hk Hc) as (s1 & E & Hcs & _).
      by rewrite E.
    + by rewrite train_invalid_category.
  - pose proof (remove_word_pruned w category s) as Hp.
    split; [by apply pruned_bounded with s|apply Hp].
  - pose proof (cleanup_pruned threshold s) as Hp.
    split; [by apply pruned_bounded with s|apply Hp].
Qed.

Lemma run_ops_bounded ops s :
  bounded s →
  bounded (run_ops ops s) ∧ categories (run_ops ops s) = categories s.
Proof.
  revert s. induction ops as [|o ops IH]; intros s Hb; [done|].
  unfold run_ops in *. simpl.
  destruct (run_op_bounded o s Hb) as [Hb' Hc'].
  destruct (IH _ Hb') as [Hb'' Hc'']. split; [done|congruence].
Qed.

Lemma train_all_cons d docs s :
  train_all (d :: docs) s
  = match train d.1 d.2 s with
    | (Ok _, s') => train_all docs s'
    | (Raise e, s') => (Raise e, s')
    end.
Proof.
  unfold train_all, for_each. simpl. unfold mbind, M_bind at 1.
  by destruct (train d.1 d.2 s) as [[[]|e] s'].
Qed.

Lemma train_all_wf docs s s' :
  wf s → train_all docs s = (Ok (), s') → wf s'.
Proof.
  revert s. induction docs as [|d docs IH]; intros s Hwf Hrun.
  - injection Hrun as <-. done.
  - rewrite train_all_cons in Hrun.
    destruct (train d.1 d.2 s) as [[[]|e] s1] eqn:E; [|done].
    apply (IH s1); [|done]. by apply (train_wf d.1 d.2 s).
Qed.
Lemma train_all_bounded docs s s' :
  bounded s → train_all docs s = (Ok (), s') → bounded s'.
Proof.
  revert s. induction docs as [|d docs IH]; intros s Hb Hrun.
  - injection Hrun as <-. done.
  - rewrite train_all_cons in Hrun.
    pose proof (train_bounded d.1 d.2 s Hb) as Hb1.
    destruct (train d.1 d.2 s) as [[[]|e] s1] eqn:E; [|done].
    by apply (IH s1).
Qed.
End runs.

Lemma init_bounded cats : bounded (init cats).
Proof.
  split; [apply init_keys_ok|]. intros t c. rewrite init_wc, init_dc. lia.
Qed.

Lemma trained_bounded `{Tokenizer} docs cats s :
  train_all docs (init cats) = (Ok (), s) → bounded s.
Proof. apply train_all_bounded, init_bounded. Qed.

(** ** Removing a word from every category *)

Lemma pop_all_ok w l s :
  (∀ c, c ∈ l → is_Some (word_memo s !! c)) →
  ∃ wm', for_each l (pop_word w) s = (Ok (), set_word_memo wm' s) ∧
         ∀ c, wm' !! c = if decide (c ∈ l) then delete w <$> word_memo s !! c
                         else word_memo s !! c.
Proof.
  revert s. induction l as [|x l IH]; intros s Hl.
  - exists (word_memo s). split; [by destruct s|].
    intros c. by rewrite decide_False by apply not_elem_of_nil.
  - destruct (Hl x) as [d Hd]; [left|].
    destruct (IH (set_word_memo (<[x := delete w d]> (word_memo s)) s))
      as (wm' & Hrun & Hwm').
    { intros c Hc. simpl. apply is_Some_insert_present; [eauto|].
      apply Hl. by right. }
    exists wm'. split.
    + unfold for_each in *. simpl. unfold mbind, M_bind at 1.
      rewrite (pop_word_ok _ _ _ d) by done. by rewrite Hrun.
    + intros c. rewrite Hwm'. simpl.
      destruct (decide (c = x)) as [->|Hne].
      * rewrite lookup_insert_eq, Hd. rewrite (decide_True (P := x ∈ x :: l)) by left.
        case_decide; simpl; [|done]. by rewrite delete_delete_eq.
      * rewrite lookup_insert_ne by done.
        destruct (decide (c ∈ l)) as [Hc|Hc].
        -- by rewrite decide_True by (by right).
        -- rewrite decide_False; [done|]. by intros [?|?]%elem_of_cons.
Qed.

Lemma remove_word_all_ok w category s :
  keys_ok s → truthy_arg category = None →
  remove_word w category s
  = (Ok (), set_word_memo (delete w <$> word_memo s) s).
Proof.
  intros Hk Hcat. unfold remove_word. rewrite Hcat.
  unfold mbind, M_bind, read.
  destruct (pop_all_ok w (categories s) s) as (wm' & -> & Hwm').
  { intros c. apply (keys_wm _ Hk). }
  do 2 f_equal. apply map_eq. intros c. rewrite Hwm', lookup_fmap.
  case_decide as Hc; [done|].
  destruct (word_memo s !! c) eqn:E; [|done].
  exfalso. apply Hc, (keys_wm _ Hk). eauto.
Qed.

(** ** Properties of the trainer *)

(** C4: [train] with a category that is not configured raises (the
    [KeyError] of [self.document_count[category] += 1]) and leaves the
    whole object — word mappings, per-category document counts and total
    document count — exactly as it was. *)
Theorem train_unknown_category_raises `{Tokenizer} (text category : string)
    (s : model) :
  keys_ok s → category ∉ categories s →
  train text category s = (Raise KeyError, s).
Proof. intros Hk Hc. by apply train_invalid_category. Qed.

Lemma train_unknown_category_raises_witness :
  keys_ok (init ["spam"; "ham"]) ∧
  ("eggs" ∉ categories (init ["spam"; "ham"])) ∧
  train "free eggs" "eggs" (init ["spam"; "ham"])
  = (Raise KeyError, init ["spam"; "ham"]).
Proof.
  assert (Hk : keys_ok (init ["spam"; "ham"])) by apply init_keys_ok.
  assert (Hc : "eggs" ∉ categories (init ["spam"; "ham"])) by compute_done.
  split; [exact Hk|]. split; [exact Hc|].
  exact (train_unknown_category_raises "free eggs" "eggs" _ Hk Hc).
Defined.

(** C7: starting from a freshly constructed model (over distinct
    categories), after any sequence of successful [train] calls the total
    document count is the sum of the per-category document counts — the
    very sum [category_probability] divides by. *)
Theorem total_is_sum_of_document_counts `{Tokenizer} (cats : list string)
    (docs : list (string * string)) (s : model) :
  NoDup cats → train_all docs (init cats) = (Ok (), s) →
  py_sum (λ cat, getitem (document_count s) cat) (categories s)
  = Ok (total_document_count s).
Proof.
  intros Hnd Hrun.
  assert (Hwf : wf s) by (apply (train_all_wf docs (init cats)); [by apply init_wf|done]).
  rewrite py_sum_dc by apply Hwf. by rewrite (wf_total _ Hwf).
Qed.

Lemma total_is_sum_of_document_counts_witness :
  NoDup ["spam"; "ham"] ∧
  train_all [("free money now", "spam"); ("meeting agenda", "ham")]
    (init ["spam"; "ham"]) = (Ok (), spam_ham) ∧
  py_sum (λ cat, getitem (document_count spam_ham) cat) (categories spam_ham)
  = Ok (total_document_count spam_ham).
Proof.
  assert (Hnd : NoDup ["spam"; "ham"]) by compute_done.
  assert (Hrun : train_all [("free money now", "spam"); ("meeting agenda", "ham")]
                   (init ["spam"; "ham"]) = (Ok (), spam_ham))
    by (vm_compute; reflexivity).
  split; [exact Hnd|]. split; [exact Hrun|].
  exact (total_is_sum_of_document_counts _ _ _ Hnd Hrun).
Defined.

(** C8: starting from a freshly constructed model, after any sequence of
    [train], [cleanup] and [remove_word] calls, every configured category
    [c] and token [t] satisfy [word_count(t, c) ≤ document_count[c]]. *)
Theorem word_count_le_document_count `{Tokenizer} (cats : list string)
    (ops : list op) (t c : string) :
  c ∈ cats →
  ∃ n d, word_count t c (run_ops ops (init cats)) = Ok n ∧
         getitem (document_count (run_ops ops (init cats))) c = Ok d ∧
         n ≤ d.
Proof.
  intros Hc.
  destruct (run_ops_bounded ops (init cats) (init_bounded cats)) as [[Hk Hb] Hcs].
  assert (Hc' : c ∈ categories (run_ops ops (init cats))).
  { rewrite Hcs. by destruct (init_spec cats) as [-> _]. }
  eexists _, _. split; [by apply word_count_pure|].
  split; [by apply getitem_dc|]. apply Hb.
Qed.

Lemma word_count_le_document_count_witness :
  "spam" ∈ ["spam"; "ham"] ∧
  ∃ n d,
    word_count "money" "spam"
      (run_ops [Train "free money" "spam"; Cleanup (4 # 5); Train "money" "spam";
                RemoveWord "free" None; Train "free lunch" "ham"]
         (init ["spam"; "ham"])) = Ok n ∧
    getitem (document_count
      (run_ops [Train "free money" "spam"; Cleanup (4 # 5); Train "money" "spam";
                RemoveWord "free" None; Train "free lunch" "ham"]
         (init ["spam"; "ham"]))) "spam" = Ok d ∧
    n ≤ d.
Proof.
  assert (Hc : "spam" ∈ ["spam"; "ham"]) by compute_done.
  split; [exact Hc|].
  exact (word_count_le_document_count ["spam"; "ham"] _ "money" "spam" Hc).
Defined.

(** ** Properties of removal and pruning *)

(** C10: [cleanup] changes nothing but the per-category token mappings: the
    category list, the per-category document counts and the total document
    count are as before (whatever the state and the threshold, and also when
    [cleanup] raises), so every [category_probability] is as before. *)
Theorem cleanup_frame (threshold : Q) (s : model) :
  categories (cleanup threshold s).2 = categories s ∧
  document_count (cleanup threshold s).2 = document_count s ∧
  total_document_count (cleanup threshold s).2 = total_document_count s ∧
  ∀ c, category_probability c (cleanup threshold s).2 = category_probability c s.
Proof.
  destruct (cleanup_pruned threshold s) as [Hc Hd Ht _ _].
  repeat split; try done.
  intros c. unfold category_probability. by rewrite Hc, Hd.
Qed.

(** ** The probability engine on well-formed states *)

Lemma Qgtb_lt x y : Qgtb x y = true ↔ (y < x)%Q.
Proof.
  unfold Qgtb. rewrite negb_true_iff. split.
  - intros Hle. apply Qnot_le_lt. intros Hxy.
    apply Qle_bool_iff in Hxy. congruence.
  - intros Hlt. destruct (Qle_bool x y) eqn:E; [|done].
    apply Qle_bool_iff in E. exfalso. by apply (Qlt_not_le y x).
Qed.

Lemma Qgtb_false_le x y : Qgtb x y = false ↔ (x <= y)%Q.
Proof.
  unfold Qgtb. rewrite negb_false_iff. apply Qle_bool_iff.
Qed.

Lemma truediv_ok n d : d ≠ 0 → truediv n d = Ok (inject_Z n / inject_Z d)%Q.
Proof. intros Hd. unfold truediv. by rewrite decide_False. Qed.

Lemma word_probability_pure s t :
  keys_ok s → total_document_count s ≠ 0 →
  word_probability t s = Ok (marginalWordProbability s t).
Proof.
  intros Hk Ht. unfold word_probability. rewrite py_sum_wc by done.
  simpl. by apply truediv_ok.
Qed.

Lemma word_probability_category_pure s t c :
  keys_ok s → c ∈ categories s →
  word_probability_category t c s = Ok (wordLikelihoodGivenCategory s t c).
Proof.
  intros Hk Hc. unfold word_probability_category, wordLikelihoodGivenCategory.
  rewrite getitem_dc by done. simpl. case_decide as Hpos; [|done].
  rewrite word_count_pure by done. simpl. apply truediv_ok. lia.
Qed.

Lemma category_probability_pure s c :
  wf s → total_document_count s ≠ 0 → c ∈ categories s →
  category_probability c s = Ok (categoryPrior s c).
Proof.
  intros Hwf Ht Hc. unfold category_probability.
  rewrite getitem_dc by (done || apply Hwf). simpl.
  rewrite py_sum_dc by apply Hwf. simpl. rewrite (wf_total _ Hwf).
  by apply truediv_ok.
Qed.

Lemma text_likelihood_pure s bag c :
  wf s → total_document_count s ≠ 0 → c ∈ categories s →
  text_likelihood bag c s = Ok (score_of s bag c).
Proof.
  intros Hwf Ht Hc. unfold text_likelihood, score_of.
  rewrite (foldlM_pure _ (score_step s c)).
  - simpl. by rewrite category_probability_pure.
  - intros score t _.
    rewrite word_probability_pure by (done || apply Hwf). simpl.
    rewrite word_probability_category_pure by (done || apply Hwf). simpl.
    unfold score_step, informative.
    destruct (Qgtb (marginalWordProbability s t) 0) eqn:Em; [|done].
    destruct (Qgtb (wordLikelihoodGivenCategory s t c) 0) eqn:El; [|done].
    simpl. unfold fdiv.
    destruct (Qeq_bool (marginalWordProbability s t) 0) eqn:Ez; [|done].
    apply Qeq_bool_iff in Ez. apply Qgtb_lt in Em.
    rewrite Ez in Em. by apply Qlt_irrefl in Em.
Qed.

(** ** An untrained model *)

Lemma word_probability_untrained s t :
  keys_ok s → total_document_count s = 0 →
  word_probability t s = Raise ZeroDivisionError.
Proof.
  intros Hk Ht. unfold word_probability. rewrite py_sum_wc by done.
  simpl. by rewrite Ht.
Qed.

Lemma category_probability_untrained s c :
  wf s → total_document_count s = 0 → c ∈ categories s →
  category_probability c s = Raise ZeroDivisionError.
Proof.
  intros Hwf Ht Hc. unfold category_probability.
  rewrite getitem_dc by (done || apply Hwf). simpl.
  rewrite py_sum_dc by apply Hwf. simpl. by rewrite (wf_total _ Hwf), Ht.
Qed.

Lemma text_likelihood_untrained s bag c :
  wf s → total_document_count s = 0 → c ∈ categories s →
  text_likelihood bag c s = Raise ZeroDivisionError.
Proof.
  intros Hwf Ht Hc. unfold text_likelihood. destruct bag as [|w bag]; simpl.
  - by rewrite category_probability_untrained.
  - by rewrite word_probability_untrained by (done || apply Hwf).
Qed.

(** C3: in a model state whose total document count is 0, [classify]
    raises [ZeroDivisionError] for every input text instead of returning
    a default, and so do [category_probability] (for a configured
    category) and [word_probability] underneath it. *)
Theorem classify_untrained_raises `{Tokenizer} (text : string) (s : model) :
  wf s → categories s ≠ [] → total_document_count s = 0 →
  classify text s = Raise ZeroDivisionError ∧
  (∀ c, c ∈ categories s → category_probability c s = Raise ZeroDivisionError) ∧
  (∀ t, word_probability t s = Raise ZeroDivisionError).
Proof.
  intros Hwf Hne Ht. split; [|split].
  - unfold classify. destruct (categories s) as [|first rest] eqn:Ecats; [done|].
    simpl. rewrite text_likelihood_untrained; [done..|].
    rewrite Ecats. left.
  - intros c Hc. by apply category_probability_untrained.
  - intros t. apply word_probability_untrained; [apply Hwf|done].
Qed.

Lemma classify_untrained_raises_witness :
  wf (init ["spam"; "ham"]) ∧
  categories (init ["spam"; "ham"]) ≠ [] ∧
  total_document_count (init ["spam"; "ham"]) = 0 ∧
  classify "free money" (init ["spam"; "ham"]) = Raise ZeroDivisionError.
Proof.
  assert (Hwf : wf (init ["spam"; "ham"])) by (apply init_wf; compute_done).
  assert (Hne : categories (init ["spam"; "ham"]) ≠ []) by done.
  assert (Ht : total_document_count (init ["spam"; "ham"]) = 0) by reflexivity.
  split; [exact Hwf|]. split; [exact Hne|]. split; [exact Ht|].
  exact (proj1 (classify_untrained_raises "free money" _ Hwf Hne Ht)).
Defined.

(** ** The score as a product *)





(** ** The arg-max loop of [classify] *)

Lemma argmax_spec (score : string → Q) l c0 m0 r :
  foldl (argmax_step score) (c0, m0) l = r →
  (m0 <= r.2)%Q ∧
  (∀ c, c ∈ l → (score c <= r.2)%Q) ∧
  ((r = (c0, m0) ∧ ∀ c, c ∈ l → (score c <= m0)%Q) ∨
   (∃ pre post, l = pre ++ r.1 :: post ∧ r.2 = score r.1 ∧ (m0 < r.2)%Q ∧
                ∀ c, c ∈ pre → (score c < r.2)%Q)).
Proof.
  revert c0 m0. induction l as [|x l IH]; intros c0 m0 Hr; simpl in Hr.
  - subst r. simpl. split; [apply Qle_refl|].
    split; [by intros c ?%elem_of_nil|].
    left. split; [done|]. by intros c ?%elem_of_nil.
  - unfold argmax_step at 2 in Hr. simpl in Hr.
    destruct (Qgtb (score x) m0) eqn:E.
    + apply Qgtb_lt in E.
      destruct (IH x (score x) Hr) as (Hle & Hall & Hcase).
      split; [apply Qlt_le_weak, (Qlt_le_trans _ (score x)); done|].
      split.
      { intros c [->|Hc]%elem_of_cons; [done|by apply Hall]. }
      right. destruct Hcase as [[Hr' Hl]|(pre & post & Hl & Hm & Hlt & Hpre)].
      * exists [], l. rewrite Hr'. simpl. split; [done|]. split; [done|].
        split; [done|]. by intros c ?%elem_of_nil.
      * exists (x :: pre), post. split; [by rewrite Hl at 1|].
        split; [done|]. split; [by apply (Qlt_trans _ (score x))|].
        intros c [->|Hc]%elem_of_cons; [done|by apply Hpre].
    + apply Qgtb_false_le in E.
      destruct (IH c0 m0 Hr) as (Hle & Hall & Hcase).
      split; [done|]. split.
      { intros c [->|Hc]%elem_of_cons;
          [by apply (Qle_trans _ m0)|by apply Hall]. }
      destruct Hcase as [[Hr' Hl]|(pre & post & Hl & Hm & Hlt & Hpre)].
      * left. split; [done|].
        intros c [->|Hc]%elem_of_cons; [done|by apply Hl].
      * right. exists (x :: pre), post. split; [by rewrite Hl at 1|].
        split; [done|]. split; [done|].
        intros c [->|Hc]%elem_of_cons;
          [by apply (Qle_lt_trans _ m0)|by apply Hpre].
Qed.

(** ** The estimators and the score under any rounding *)

Section rounded.
Context `{Rounding}.

Lemma truediv_rounded n d :
  d ≠ 0 → truediv n d = Ok (rnd (inject_Z n / inject_Z d)%Q).
Proof. intros Hd. unfold truediv. by rewrite decide_False. Qed.

Lemma word_probability_rounded s t :
  keys_ok s → total_document_count s ≠ 0 →
  word_probability t s = Ok (rounded_marginal s t).
Proof.
  intros Hk Ht. unfold word_probability. rewrite py_sum_wc by done.
  simpl. by apply truediv_rounded.
Qed.

Lemma word_probability_category_rounded s t c :
  keys_ok s → c ∈ categories s →
  word_probability_category t c s = Ok (rounded_likelihood s t c).
Proof.
  intros Hk Hc. unfold word_probability_category, rounded_likelihood.
  rewrite getitem_dc by done. simpl. case_decide as Hpos; [|done].
  rewrite word_count_pure by done. simpl. apply truediv_rounded. lia.
Qed.

Lemma category_probability_rounded s c :
  wf s → total_document_count s ≠ 0 → c ∈ categories s →
  category_probability c s = Ok (rounded_prior s c).
Proof.
  intros Hwf Ht Hc. unfold category_probability.
  rewrite getitem_dc by (done || apply Hwf). simpl.
  rewrite py_sum_dc by apply Hwf. simpl. rewrite (wf_total _ Hwf).
  by apply truediv_rounded.
Qed.

Lemma text_likelihood_rounded s bag c :
  wf s → total_document_count s ≠ 0 → c ∈ categories s →
  text_likelihood bag c s = Ok (rounded_score s bag c).
Proof.
  intros Hwf Ht Hc. unfold text_likelihood, rounded_score.
  rewrite (foldlM_pure _ (rounded_score_step s c)).
  - simpl. by rewrite category_probability_rounded.
  - intros score t _.
    rewrite word_probability_rounded by (done || apply Hwf). simpl.
    rewrite word_probability_category_rounded by (done || apply Hwf). simpl.
    unfold rounded_score_step.
    destruct (Qgtb (rounded_marginal s t) 0) eqn:Em; [|done].
    destruct (Qgtb (rounded_likelihood s t c) 0) eqn:El; [|done].
    simpl. unfold fdiv.
    destruct (Qeq_bool (rounded_marginal s t) 0) eqn:Ez; [|done].
    apply Qeq_bool_iff in Ez. apply Qgtb_lt in Em.
    rewrite Ez in Em. by apply Qlt_irrefl in Em.
Qed.

Lemma classify_rounded `{Tokenizer} text s first rest :
  wf s → total_document_count s ≠ 0 → categories s = first :: rest →
  classify text s
  = Ok (foldl (argmax_step (rounded_score s (tokenize text))) (first, 0%Q)
          (categories s)).
Proof.
  intros Hwf Ht Hcats. unfold classify. rewrite Hcats at 1.
  apply foldlM_pure. intros [mc ml] c Hc.
  rewrite text_likelihood_rounded by done. simpl.
  unfold argmax_step. simpl. by destruct (Qgtb _ _).
Qed.

End rounded.


Lemma spam_ham_wf : wf spam_ham.
Proof.
  apply (train_all_wf (H := space_tokenizer)
           [("free money now", "spam"); ("meeting agenda", "ham")]
           (init ["spam"; "ham"])).
  - apply init_wf. compute_done.
  - vm_compute. reflexivity.
Qed.




(** The seeded default is reached in binary64 and only by rounding: on a
    long document every score underflows to 0 and [classify] returns the
    first category with score 0, where exact arithmetic gives a strictly
    positive score. *)
Example classify_underflow_returns_default :
  @classify space_tokenizer binary64 long_text long_model = Ok ("a", 0%Q) ∧
  match @classify space_tokenizer exact long_text long_model with
  | Ok (_, v) => Qgtb v 0
  | Raise _ => false
  end = true.
Proof. split; vm_compute; reflexivity. Qed.

(** Rounding can also decide between categories: on [tie_model] the two
    scores are both 1/2 exactly, so exact arithmetic returns the first
    category; in binary64 the score of [spam] rounds below 1/2 and
    [classify] returns [ham]. *)
Example classify_rounding_breaks_tie :
  @classify space_tokenizer binary64 "x" tie_model
  = Ok ("ham", (4503599627370496 # 9007199254740992)%Q) ∧
  @text_likelihood binary64 (tokenize "x") "spam" tie_model
  = Ok (9007199254740991 # 18014398509481984)%Q ∧
  @classify space_tokenizer exact "x" tie_model = Ok ("spam", (15 # 30)%Q).
Proof. split; [|split]; vm_compute; reflexivity. Qed.

(** ** Pruning a set of tokens *)

Lemma prune_dict_lookup R d t :
  prune_dict R d !! t = if decide (t ∈ R) then None else d !! t.
Proof.
  unfold prune_dict. case_decide as Ht.
  - apply map_lookup_filter_None. right. intros x _. simpl. tauto.
  - destruct (d !! t) as [x|] eqn:E.
    + apply map_lookup_filter_Some. by split.
    + apply map_lookup_filter_None. by left.
Qed.

Lemma prune_lookup R wm c : prune R wm !! c = prune_dict R <$> wm !! c.
Proof. unfold prune. by rewrite lookup_fmap. Qed.

Lemma prune_empty wm : prune ∅ wm = wm.
Proof.
  apply map_eq. intros c. rewrite prune_lookup.
  destruct (wm !! c) as [d|]; simpl; [|done]. f_equal.
  apply map_eq. intros t. rewrite prune_dict_lookup.
  by rewrite decide_False by apply not_elem_of_empty.
Qed.

Lemma prune_prune A B wm : prune B (prune A wm) = prune (A ∪ B) wm.
Proof.
  apply map_eq. intros c. rewrite !prune_lookup.
  destruct (wm !! c) as [d|]; simpl; [|done]. f_equal.
  apply map_eq. intros t. rewrite !prune_dict_lookup.
  destruct (decide (t ∈ B)) as [HB|HB].
  - rewrite decide_True; [done|]. apply elem_of_union. by right.
  - destruct (decide (t ∈ A)) as [HA|HA].
    + rewrite decide_True; [done|]. apply elem_of_union. by left.
    + rewrite decide_False; [done|]. rewrite elem_of_union. tauto.
Qed.

Lemma delete_fmap_prune w wm : delete w <$> wm = prune {[w]} wm.
Proof.
  apply map_eq. intros c. rewrite prune_lookup, lookup_fmap.
  destruct (wm !! c) as [d|]; simpl; [|done]. f_equal.
  apply map_eq. intros t. rewrite prune_dict_lookup.
  destruct (decide (t = w)) as [->|Hne].
  - rewrite lookup_delete_eq. by rewrite decide_True by (by apply elem_of_singleton).
  - rewrite lookup_delete_ne by done.
    by rewrite decide_False by (by rewrite elem_of_singleton).
Qed.

Lemma set_word_memo_keys_ok wm s :
  keys_ok s → (∀ c, is_Some (wm !! c) ↔ is_Some (word_memo s !! c)) →
  keys_ok (set_word_memo wm s).
Proof.
  intros [Hw Hd] Hwm. split; intros c; simpl; [by rewrite Hwm|done].
Qed.

Lemma prune_keys_ok R s : keys_ok s → keys_ok (set_word_memo (prune R (word_memo s)) s).
Proof.
  intros Hk. apply set_word_memo_keys_ok; [done|].
  intros c. rewrite prune_lookup. by rewrite fmap_is_Some.
Qed.

(** The removal loop of [cleanup]. *)
Lemma remove_words_ok ws n s :
  keys_ok s →
  foldlMM (λ removed_count word,
             remove_word word None;; mret (removed_count + 1)) n ws s
  = (Ok (n + Z.of_nat (length ws)),
     set_word_memo (prune (list_to_set ws) (word_memo s)) s).
Proof.
  revert n s. induction ws as [|w ws IH]; intros n s Hk.
  - simpl. unfold mret, M_ret. rewrite prune_empty, Z.add_0_r. by destruct s.
  - cbn [foldlMM]. unfold mbind, M_bind at 1. unfold mbind, M_bind at 1.
    rewrite remove_word_all_ok by done. unfold mret, M_ret at 1.
    rewrite delete_fmap_prune. rewrite IH by (by apply prune_keys_ok).
    simpl. rewrite prune_prune. f_equal. f_equal. lia.
Qed.

Lemma elem_of_vocab_in s l t :
  t ∈ vocab_in s l
  ↔ ∃ c d, c ∈ l ∧ word_memo s !! c = Some d ∧ is_Some (d !! t).
Proof.
  unfold vocab_in. rewrite elem_of_union_list. split.
  - intros (X & HX & Ht). apply list_elem_of_fmap in HX as (c & -> & Hc).
    destruct (word_memo s !! c) as [d|] eqn:E; simpl in Ht.
    + exists c, d. by apply elem_of_dom in Ht.
    + by apply elem_of_dom, is_Some_None in Ht.
  - intros (c & d & Hc & Hd & Ht). exists (dom d). split.
    + apply list_elem_of_fmap. exists c. by rewrite Hd.
    + by apply elem_of_dom.
Qed.

Lemma elem_of_heavy_in threshold s l t :
  t ∈ heavy_in threshold s l ↔ heavy threshold s t = true ∧ t ∈ vocab_in s l.
Proof. unfold heavy_in. by rewrite elem_of_filter. Qed.

Lemma heavy_in_cons threshold s c l :
  heavy_in threshold s (c :: l)
  = heavy_in threshold s [c] ∪ (heavy_in threshold s l ∖ heavy_in threshold s [c]).
Proof.
  apply set_eq. intros t.
  rewrite elem_of_union, elem_of_difference, !elem_of_heavy_in.
  unfold vocab_in. simpl. rewrite !elem_of_union, elem_of_empty.
  destruct (decide (t ∈ (dom (default ∅ (word_memo s !! c)) : gset string)));
    tauto.
Qed.

(** The scan of one category. *)
Lemma scan_category_ok threshold s c d :
  keys_ok s → total_document_count s ≠ 0 → word_memo s !! c = Some d →
  scan_category threshold d s = Ok (heavy_in threshold s [c]).
Proof.
  intros Hk Ht Hd. unfold scan_category.
  rewrite (foldlM_pure _ (λ (acc : gset string) w,
             if heavy threshold s w then acc ∪ {[w]} else acc)).
  2:{ intros acc w _. rewrite word_probability_pure by done. simpl.
      unfold heavy. by destruct (Qgeb _ _). }
  f_equal.
  assert (Hfold : ∀ keys (acc : gset string),
    foldl (λ (acc : gset string) w,
             if heavy threshold s w then acc ∪ {[w]} else acc) acc keys
    = acc ∪ filter (λ t, heavy threshold s t = true) (list_to_set keys)).
  { induction keys as [|w keys IH]; intros acc; simpl.
    - apply set_eq. intros t.
      rewrite elem_of_union, elem_of_filter, elem_of_empty. tauto.
    - rewrite IH. apply set_eq. intros t.
      destruct (heavy threshold s w) eqn:E;
        rewrite !elem_of_union, !elem_of_filter, ?elem_of_union,
                ?elem_of_singleton.
      + split; [|tauto]. intros [[?| ->]|?]; tauto.
      + split; [tauto|]. intros [?|[Hh [->|?]]]; [tauto|congruence|tauto]. }
  rewrite Hfold, union_empty_l_L. unfold heavy_in, vocab_in, dict_keys. simpl.
  rewrite Hd. simpl. rewrite union_empty_r_L.
  assert (list_to_set (map_to_list d).*1 =@{gset string} dom d) as ->; [|done].
  apply leibniz_equiv. symmetry. apply dom_alt.
Qed.

Lemma cleanup_category_ok threshold n c s :
  keys_ok s → total_document_count s ≠ 0 → c ∈ categories s →
  cleanup_category threshold n c s
  = (Ok (n + Z.of_nat (size (heavy_in threshold s [c]))),
     set_word_memo (prune (heavy_in threshold s [c]) (word_memo s)) s).
Proof.
  intros Hk Ht Hc. destruct (proj1 (keys_wm _ Hk c) Hc) as [d Hd].
  unfold cleanup_category, mbind, M_bind, read, getitem. rewrite Hd.
  rewrite (scan_category_ok threshold s c d) by done.
  rewrite remove_words_ok by done.
  by rewrite list_to_set_elements_L.
Qed.

(** Pruning [R] leaves the counts of the other tokens, hence their
    marginal probability, as they were. *)
Lemma wc_prune R s t c :
  wc (set_word_memo (prune R (word_memo s)) s) t c
  = if decide (t ∈ R) then 0 else wc s t c.
Proof.
  unfold wc. simpl. rewrite prune_lookup.
  destruct (word_memo s !! c) as [d|]; simpl.
  - rewrite prune_dict_lookup. by case_decide.
  - by case_decide.
Qed.

Lemma heavy_prune threshold R s t :
  t ∉ R →
  heavy threshold (set_word_memo (prune R (word_memo s)) s) t
  = heavy threshold s t.
Proof.
  intros Ht. unfold heavy, marginalWordProbability. simpl.
  rewrite (sumZ_ext _ (wc s t)); [done|].
  intros c _. rewrite wc_prune. by rewrite decide_False.
Qed.

Lemma vocab_in_prune R s l :
  vocab_in (set_word_memo (prune R (word_memo s)) s) l = vocab_in s l ∖ R.
Proof.
  apply set_eq. intros t. rewrite elem_of_difference, !elem_of_vocab_in. simpl.
  split.
  - intros (c & d' & Hc & Hd' & Ht). rewrite prune_lookup in Hd'.
    destruct (word_memo s !! c) as [d|] eqn:Hd; [|done].
    injection Hd' as <-. rewrite prune_dict_lookup in Ht.
    case_decide as HR; [by apply is_Some_None in Ht|].
    split; [|done]. by exists c, d.
  - intros [(c & d & Hc & Hd & Ht) HR]. exists c, (prune_dict R d).
    split; [done|]. split; [by rewrite prune_lookup, Hd|].
    rewrite prune_dict_lookup. by rewrite decide_False.
Qed.

Lemma heavy_in_prune threshold R s l :
  heavy_in threshold (set_word_memo (prune R (word_memo s)) s) l
  = heavy_in threshold s l ∖ R.
Proof.
  apply set_eq. intros t.
  rewrite elem_of_difference, !elem_of_heavy_in, vocab_in_prune,
          elem_of_difference.
  split.
  - intros [Hh [Hv HR]]. by rewrite heavy_prune in Hh.
  - intros [[Hh Hv] HR]. by rewrite heavy_prune.
Qed.

(** The loop of [cleanup] over a list of configured categories. *)
Lemma cleanup_loop_ok threshold l n s :
  keys_ok s → total_document_count s ≠ 0 → (∀ c, c ∈ l → c ∈ categories s) →
  foldlMM (cleanup_category threshold) n l s
  = (Ok (n + Z.of_nat (size (heavy_in threshold s l))),
     set_word_memo (prune (heavy_in threshold s l) (word_memo s)) s).
Proof.
  revert n s. induction l as [|c l IH]; intros n s Hk Ht Hl.
  - simpl. unfold mret, M_ret.
    assert (heavy_in threshold s [] = ∅) as ->.
    { apply set_eq. intros t. rewrite elem_of_heavy_in. unfold vocab_in. simpl.
      rewrite elem_of_empty. tauto. }
    rewrite prune_empty, size_empty, Z.add_0_r. by destruct s.
  - cbn [foldlMM]. unfold mbind, M_bind at 1.
    rewrite cleanup_category_ok; [|done|done|apply Hl; left].
    rewrite IH; [|by apply prune_keys_ok|done|intros c' Hc'; apply Hl; by right].
    simpl. rewrite heavy_in_prune, prune_prune, <- heavy_in_cons.
    f_equal. f_equal.
    assert (size (heavy_in threshold s (c :: l))
            = (size (heavy_in threshold s [c])
               + size (heavy_in threshold s l ∖ heavy_in threshold s [c]))%nat)
      as ->; [|lia].
    rewrite (heavy_in_cons threshold s c l). apply size_union.
    intros t Ht1 [_ Ht2]%elem_of_difference. done.
Qed.

Lemma cleanup_ok threshold s :
  keys_ok s → total_document_count s ≠ 0 →
  cleanup threshold s
  = (Ok (Z.of_nat (size (heavy_in threshold s (categories s)))),
     set_word_memo (prune (heavy_in threshold s (categories s)) (word_memo s)) s).
Proof.
  intros Hk Ht. unfold cleanup, mbind, M_bind, read.
  by rewrite cleanup_loop_ok.
Qed.

Lemma foldl_union_list {A : Type} (f : A → gset string) l (acc : gset string) :
  foldl (λ acc x, acc ∪ f x) acc l = acc ∪ ⋃ (f <$> l).
Proof.
  revert acc. induction l as [|x l IH]; intros acc; simpl.
  - by rewrite union_empty_r_L.
  - rewrite IH. by rewrite assoc_L by apply _.
Qed.

Lemma vocab_size_all_pure s :
  keys_ok s →
  vocab_size None s = Ok (Z.of_nat (size (vocab_in s (categories s)))).
Proof.
  intros Hk. unfold vocab_size. simpl.
  rewrite (foldlM_pure _ (λ (acc : gset string) c,
             acc ∪ dom (default ∅ (word_memo s !! c)))).
  - simpl. rewrite foldl_union_list. by rewrite union_empty_l_L.
  - intros acc c Hc. apply (keys_wm _ Hk) in Hc as [d Hd].
    unfold getitem. by rewrite Hd.
Qed.

Lemma heavy_iff threshold s t :
  heavy threshold s t = true ↔ (threshold <= marginalWordProbability s t)%Q.
Proof. unfold heavy, Qgeb. apply Qle_bool_iff. Qed.

Lemma wc_outside_vocab s t c :
  c ∈ categories s → t ∉ vocab_in s (categories s) → wc s t c = 0.
Proof.
  intros Hc Ht. unfold wc.
  destruct (word_memo s !! c) as [d|] eqn:Hd; simpl; [|done].
  destruct (d !! t) as [n|] eqn:Hn; simpl; [|done].
  exfalso. apply Ht, elem_of_vocab_in. exists c, d. eauto.
Qed.


(** With no document counted, [cleanup] returns only when it finds no
    token to examine, and then it changes nothing. *)
Lemma cleanup_category_untrained threshold n c s r s' :
  keys_ok s → total_document_count s = 0 → c ∈ categories s →
  cleanup_category threshold n c s = (Ok r, s') → r = n ∧ s' = s.
Proof.
  intros Hk Ht Hc. destruct (proj1 (keys_wm _ Hk c) Hc) as [d Hd].
  unfold cleanup_category, mbind, M_bind, read, getitem. rewrite Hd.
  unfold scan_category. destruct (dict_keys d) as [|w ws]; simpl.
  - rewrite elements_empty. simpl. unfold mret, M_ret. by intros [= <- <-].
  - by rewrite word_probability_untrained.
Qed.

Lemma cleanup_untrained threshold s n s' :
  keys_ok s → total_document_count s = 0 →
  cleanup threshold s = (Ok n, s') → n = 0 ∧ s' = s.
Proof.
  intros Hk Ht. unfold cleanup, mbind, M_bind, read.
  assert (Hloop : ∀ l n0,
    (∀ c, c ∈ l → c ∈ categories s) →
    foldlMM (cleanup_category threshold) n0 l s = (Ok n, s') → n = n0 ∧ s' = s).
  { induction l as [|c l IH]; intros n0 Hl; simpl.
    - unfold mret, M_ret. by intros [= <- <-].
    - unfold mbind, M_bind.
      destruct (cleanup_category threshold n0 c s) as [[r|e] s1] eqn:E; [|done].
      apply cleanup_category_untrained in E as [-> ->]; [|done|done|apply Hl; left].
      apply IH. intros c' Hc'. apply Hl. by right. }
  by apply Hloop.
Qed.



(** One removal is counted for a token deleted from two mappings. *)
Example cleanup_counts_tokens_not_entries :
  (cleanup 1%Q free_model).1 = Ok 1 ∧
  total_word_count None free_model = Ok 4 ∧
  total_word_count None (cleanup 1%Q free_model).2 = Ok 2.
Proof. repeat split; vm_compute; reflexivity. Qed.

(** ** Threshold 1 *)

Lemma heavy_one_below s t :
  0 ≤ sumZ (wc s t) (categories s) →
  sumZ (wc s t) (categories s) < total_document_count s →
  heavy 1%Q s t = false.
Proof.
  intros Hge Hlt. unfold heavy, Qgeb, marginalWordProbability.
  destruct (total_document_count s) as [|p|p] eqn:E; [lia| |lia].
  unfold Qle_bool. simpl. apply Z.leb_gt. rewrite Pos.mul_1_l. lia.
Qed.

Section marginal_after_training.
Context `{Tokenizer}.

(** Each training document adds 1 to the total and at most 1 to the
    summed count of a token; it adds nothing when the token is not in
    the document. *)
Lemma train_all_marginal docs s s' t :
  wf s → train_all docs s = (Ok (), s') →
  sumZ (wc s' t) (categories s') - sumZ (wc s t) (categories s)
  ≤ total_document_count s' - total_document_count s ∧
  ((∃ d, d ∈ docs ∧ t ∉ tokenize d.1) →
   sumZ (wc s' t) (categories s') - sumZ (wc s t) (categories s)
   < total_document_count s' - total_document_count s).
Proof.
  revert s. induction docs as [|d docs IH]; intros s Hwf Hrun.
  - injection Hrun as <-. split; [lia|].
    intros (d & Hd & _). by apply elem_of_nil in Hd.
  - rewrite train_all_cons in Hrun.
    destruct (train d.1 d.2 s) as [[[]|e] s1] eqn:E; [|done].
    assert (Hwf1 : wf s1) by (by apply (train_wf d.1 d.2 s)).
    destruct (IH s1 Hwf1 Hrun) as [Hle Hlt].
    destruct (decide (d.2 ∈ categories s)) as [Hc|Hc].
    2:{ rewrite train_invalid_category in E by (done || apply Hwf). done. }
    destruct (train_effect d.1 d.2 s (wf_keys _ Hwf) Hc)
      as (s1' & E' & Hcs & _ & Ht' & _ & Hwc).
    rewrite E in E'. injection E' as <-.
    assert (Hstep : sumZ (wc s1 t) (categories s1)
                    = sumZ (wc s t) (categories s)
                      + if decide (t ∈ tokenize d.1) then 1 else 0).
    { rewrite Hcs. apply sumZ_update with d.2; [apply Hwf|done|..].
      - rewrite Hwc. destruct (decide (t ∈ tokenize d.1)) as [Hin|Hin].
        + by rewrite decide_True.
        + rewrite decide_False; [lia|]. by intros [_ ?].
      - intros c' Hne. rewrite Hwc. rewrite decide_False; [done|].
        by intros [? _]. }
    split.
    + case_decide; lia.
    + intros (d' & [->|Hd']%elem_of_cons & Hmiss).
      * rewrite decide_False in Hstep by done. lia.
      * assert (sumZ (wc s' t) (categories s') - sumZ (wc s1 t) (categories s1)
                < total_document_count s' - total_document_count s1)
          by (apply Hlt; eauto).
        case_decide; lia.
Qed.
End marginal_after_training.

(** C2 (as amended): on a model freshly trained over distinct categories,
    [cleanup] with threshold 1 removes nothing — it reports 0 and leaves
    the model as it was — provided no token occurs in every training
    document. *)
Theorem cleanup_threshold_one_removes_nothing `{Tokenizer} (cats : list string)
    (docs : list (string * string)) (s : model) :
  NoDup cats → train_all docs (init cats) = (Ok (), s) →
  (∀ t, ∃ d, d ∈ docs ∧ t ∉ tokenize d.1) →
  cleanup 1%Q s = (Ok 0, s).
Proof.
  intros Hnd Hrun Hmiss.
  assert (Hwf0 : wf (init cats)) by (by apply init_wf).
  assert (Hwf : wf s) by (by apply (train_all_wf docs (init cats))).
  assert (Hbelow : ∀ t, sumZ (wc s t) (categories s) < total_document_count s).
  { intros t.
    destruct (train_all_marginal docs (init cats) s t Hwf0 Hrun) as [_ Hlt].
    specialize (Hlt (Hmiss t)).
    destruct (init_spec cats) as (_ & Htot & _ & _). rewrite Htot in Hlt.
    rewrite (sumZ_zero (wc (init cats) t)) in Hlt by (intros c; apply init_wc).
    lia. }
  assert (Hnonneg : ∀ t, 0 ≤ sumZ (wc s t) (categories s)).
  { intros t. apply sumZ_nonneg. intros c _. apply (wf_bound _ Hwf). }
  assert (Htot : total_document_count s ≠ 0).
  { specialize (Hbelow EmptyString). specialize (Hnonneg EmptyString). lia. }
  rewrite cleanup_ok by (done || apply Hwf).
  assert (heavy_in 1%Q s (categories s) = ∅) as ->.
  { apply set_eq. intros t. rewrite elem_of_heavy_in, elem_of_empty.
    rewrite heavy_one_below by (apply Hnonneg || apply Hbelow).
    split; [by intros [? _]|done]. }
  rewrite prune_empty, size_empty. simpl. f_equal. by destruct s.
Qed.

Lemma cleanup_threshold_one_removes_nothing_witness :
  NoDup ["spam"; "ham"] ∧
  train_all [("free money now", "spam"); ("meeting agenda", "ham")]
    (init ["spam"; "ham"]) = (Ok (), spam_ham) ∧
  (∀ t, ∃ d, d ∈ [("free money now", "spam"); ("meeting agenda", "ham")]
             ∧ t ∉ tokenize d.1) ∧
  cleanup 1%Q spam_ham = (Ok 0, spam_ham).
Proof.
  assert (Hnd : NoDup ["spam"; "ham"]) by compute_done.
  assert (Hrun : train_all [("free money now", "spam"); ("meeting agenda", "ham")]
                   (init ["spam"; "ham"]) = (Ok (), spam_ham))
    by (vm_compute; reflexivity).
  assert (Hmiss : ∀ t, ∃ d, d ∈ [("free money now", "spam"); ("meeting agenda", "ham")]
                            ∧ t ∉ tokenize d.1).
  { intros t. destruct (decide (t ∈ tokenize "free money now")) as [Hin|Hout].
    - exists ("meeting agenda", "ham"). split; [compute_done|].
      vm_compute in Hin. vm_compute.
      intros Hin'. repeat (apply elem_of_cons in Hin as [->|Hin];
        [repeat (apply elem_of_cons in Hin' as [Hin'|Hin']; [discriminate|]);
         by apply elem_of_nil in Hin'|]).
      by apply elem_of_nil in Hin.
    - exists ("free money now", "spam"). split; [compute_done|done]. }
  split; [exact Hnd|]. split; [exact Hrun|]. split; [exact Hmiss|].
  exact (cleanup_threshold_one_removes_nothing _ _ _ Hnd Hrun Hmiss).
Defined.

(** C2, as stated, fails: two categories have each received a document,
    the token [free] occurs in both documents, its marginal probability is
    2/2, and [cleanup] with threshold 1 removes it. *)
Lemma cleanup_threshold_one_removes_shared_token :
  train_all [("free money", "spam"); ("free lunch", "ham")] (init ["spam"; "ham"])
  = (Ok (), free_model) ∧
  getitem (document_count free_model) "spam" = Ok 1 ∧
  getitem (document_count free_model) "ham" = Ok 1 ∧
  word_probability "free" free_model = Ok (2 # 2)%Q ∧
  (cleanup 1%Q free_model).1 = Ok 1 ∧
  (cleanup 1%Q free_model).1 ≠ Ok 0 ∧
  word_count "free" "spam" free_model = Ok 1 ∧
  word_count "free" "spam" (cleanup 1%Q free_model).2 = Ok 0.
Proof.
  split; [vm_compute; reflexivity|]. split; [vm_compute; reflexivity|].
  split; [vm_compute; reflexivity|]. split; [vm_compute; reflexivity|].
  split; [vm_compute; reflexivity|]. split; [vm_compute; discriminate|].
  split; vm_compute; reflexivity.
Qed.

(** * Further properties of the methods *)

(** ** The constructor and the read accessors *)

Lemma word_count_Ok_inv s t c n :
  keys_ok s → word_count t c s = Ok n → c ∈ categories s ∧ n = wc s t c.
Proof.
  intros Hk Hn. assert (Hc : c ∈ categories s).
  { apply (keys_wm _ Hk). unfold word_count, getitem in Hn.
    destruct (word_memo s !! c); [eauto|done]. }
  split; [done|]. rewrite word_count_pure in Hn by done. by injection Hn.
Qed.

Lemma getitem_dc_Ok_inv s c d :
  keys_ok s → getitem (document_count s) c = Ok d →
  c ∈ categories s ∧ d = dc s c.
Proof.
  intros Hk Hd. assert (Hc : c ∈ categories s).
  { apply (keys_dc _ Hk). unfold getitem in Hd.
    destruct (document_count s !! c); [eauto|done]. }
  split; [done|]. rewrite getitem_dc in Hd by done. by injection Hd.
Qed.

Lemma word_count_unknown s t c :
  keys_ok s → c ∉ categories s → word_count t c s = Raise KeyError.
Proof.
  intros Hk Hc. unfold word_count, getitem.
  destruct (word_memo s !! c) eqn:E; [|done].
  exfalso. apply Hc, (keys_wm _ Hk). eauto.
Qed.

(** X1: a freshly constructed model reads as empty: every count of a
    configured category is 0 (an unknown category raises [KeyError]), the
    totals and the vocabulary size are 0. *)
Theorem fresh_model_reads_zero (cats : list string) (t c : string) :
  word_count t c (init cats)
  = (if decide (c ∈ cats) then Ok 0 else Raise KeyError) ∧
  getitem (document_count (init cats)) c
  = (if decide (c ∈ cats) then Ok 0 else Raise KeyError) ∧
  total_document_count (init cats) = 0 ∧
  total_word_count None (init cats) = Ok 0 ∧
  vocab_size None (init cats) = Ok 0.
Proof.
  destruct (init_spec cats) as (Hc & Ht & Hw & Hd).
  split; [|split; [|split; [done|split]]].
  - unfold word_count, getitem. rewrite Hw. by case_decide.
  - unfold getitem. rewrite Hd. by case_decide.
  - unfold total_word_count. simpl.
    rewrite (foldlM_pure _ (λ acc _, acc)).
    + generalize (categories (init cats)). intros l. by induction l.
    + intros acc c' Hc'. rewrite Hc in Hc'. unfold getitem. rewrite Hw.
      rewrite decide_True by done. simpl. f_equal.
      unfold dict_values_sum. rewrite map_to_list_empty. simpl. lia.
  - rewrite vocab_size_all_pure by apply init_keys_ok.
    assert (vocab_in (init cats) (categories (init cats)) = ∅) as ->; [|done].
    apply set_eq. intros t'. rewrite elem_of_vocab_in, elem_of_empty.
    split; [|done]. intros (c' & d & _ & Hd' & Ht').
    rewrite Hw in Hd'. case_decide; [|done]. injection Hd' as <-.
    rewrite lookup_empty in Ht'. by apply is_Some_None in Ht'.
Qed.

(** ** Training *)

Section training_properties.
Context `{Tokenizer}.

(** X2: a [train] call with a configured category returns and counts the
    document once: the category's document count and the total grow by 1,
    the count of each token of the document grows by 1 in that category,
    and every other count is as before. *)
Theorem train_counts_document_once (text c : string) (s : model) :
  keys_ok s → c ∈ categories s →
  ∃ s',
    train text c s = (Ok (), s') ∧
    categories s' = categories s ∧
    total_document_count s' = total_document_count s + 1 ∧
    (∀ c' d, getitem (document_count s) c' = Ok d →
             getitem (document_count s') c'
             = Ok (if decide (c' = c) then d + 1 else d)) ∧
    (∀ t c' n, word_count t c' s = Ok n →
               word_count t c' s'
               = Ok (if decide (c' = c ∧ t ∈ tokenize text) then n + 1 else n)).
Proof.
  intros Hk Hc.
  destruct (train_effect text c s Hk Hc) as (s' & E & Hcs & Hk' & Ht & Hdc & Hwc).
  exists s'. split; [done|]. split; [done|]. split; [done|]. split.
  - intros c' d Hd. apply getitem_dc_Ok_inv in Hd as [Hc' ->]; [|done].
    rewrite getitem_dc by (done || by rewrite Hcs). rewrite Hdc.
    by destruct (decide (c' = c)) as [->|].
  - intros t c' n Hn. apply word_count_Ok_inv in Hn as [Hc' ->]; [|done].
    rewrite word_count_pure by (done || by rewrite Hcs). rewrite Hwc.
    by case_decide.
Qed.

(** X3: training on the same document twice counts it twice: nothing
    identifies a document, so each of its tokens gains 2. *)
Theorem train_same_document_twice (text c t : string) (s : model) (n : Z) :
  keys_ok s → c ∈ categories s → t ∈ tokenize text →
  word_count t c s = Ok n →
  ∃ s1 s2,
    train text c s = (Ok (), s1) ∧ train text c s1 = (Ok (), s2) ∧
    word_count t c s2 = Ok (n + 2) ∧
    total_document_count s2 = total_document_count s + 2.
Proof.
  intros Hk Hc Ht Hn.
  destruct (train_effect text c s Hk Hc) as (s1 & E1 & Hcs1 & Hk1 & Ht1 & _ & Hwc1).
  assert (Hc1 : c ∈ categories s1) by (by rewrite Hcs1).
  destruct (train_effect text c s1 Hk1 Hc1) as (s2 & E2 & Hcs2 & Hk2 & Ht2 & _ & Hwc2).
  exists s1, s2. split; [done|]. split; [done|].
  apply word_count_Ok_inv in Hn as [_ ->]; [|done]. split.
  - rewrite word_count_pure by (done || by rewrite Hcs2).
    rewrite Hwc2, Hwc1. rewrite !decide_True by done. f_equal. lia.
  - lia.
Qed.

End training_properties.

Lemma train_counts_document_once_witness :
  keys_ok spam_ham ∧ "ham" ∈ categories spam_ham ∧
  ∃ s',
    train "lunch agenda" "ham" spam_ham = (Ok (), s') ∧
    categories s' = categories spam_ham ∧
    total_document_count s' = total_document_count spam_ham + 1 ∧
    (∀ c' d, getitem (document_count spam_ham) c' = Ok d →
             getitem (document_count s') c'
             = Ok (if decide (c' = "ham") then d + 1 else d)) ∧
    (∀ t c' n, word_count t c' spam_ham = Ok n →
               word_count t c' s'
               = Ok (if decide (c' = "ham" ∧ t ∈ tokenize "lunch agenda")
                     then n + 1 else n)).
Proof.
  assert (Hk : keys_ok spam_ham) by apply spam_ham_wf.
  assert (Hc : "ham" ∈ categories spam_ham) by compute_done.
  split; [exact Hk|]. split; [exact Hc|].
  exact (train_counts_document_once "lunch agenda" "ham" spam_ham Hk Hc).
Defined.

Lemma train_same_document_twice_witness :
  keys_ok spam_ham ∧ "spam" ∈ categories spam_ham ∧
  "free" ∈ tokenize "free money now" ∧
  word_count "free" "spam" spam_ham = Ok 1 ∧
  ∃ s1 s2,
    train "free money now" "spam" spam_ham = (Ok (), s1) ∧
    train "free money now" "spam" s1 = (Ok (), s2) ∧
    word_count "free" "spam" s2 = Ok (1 + 2) ∧
    total_document_count s2 = total_document_count spam_ham + 2.
Proof.
  assert (Hk : keys_ok spam_ham) by apply spam_ham_wf.
  assert (Hc : "spam" ∈ categories spam_ham) by compute_done.
  assert (Ht : "free" ∈ tokenize "free money now") by compute_done.
  assert (Hn : word_count "free" "spam" spam_ham = Ok 1) by (vm_compute; reflexivity).
  split; [exact Hk|]. split; [exact Hc|]. split; [exact Ht|]. split; [exact Hn|].
  exact (train_same_document_twice "free money now" "spam" "free" spam_ham 1
           Hk Hc Ht Hn).
Defined.

(** ** Removing and adding single words *)

Lemma truthy_arg_nonempty c : c ≠ EmptyString → truthy_arg (Some c) = Some c.
Proof. by destruct c. Qed.

Lemma truthy_arg_Some category c :
  truthy_arg category = Some c → category = Some c ∧ c ≠ EmptyString.
Proof. destruct category as [[|a r]|]; simpl; intros [= <-]; done. Qed.

Lemma lookup_missing_category s c :
  keys_ok s → c ∉ categories s → word_memo s !! c = None.
Proof.
  intros Hk Hc. destruct (word_memo s !! c) eqn:E; [|done].
  exfalso. apply Hc, (keys_wm _ Hk). eauto.
Qed.

(** X4: [remove_word] with a non-empty category touches that category
    alone: the word's count there becomes 0 and every other count, the
    document counts and the category list are as before; an unknown
    category raises [KeyError] and changes nothing. *)
Theorem remove_word_from_one_category (w c : string) (s : model) :
  keys_ok s → c ≠ EmptyString →
  (c ∉ categories s → remove_word w (Some c) s = (Raise KeyError, s)) ∧
  (c ∈ categories s →
   ∃ s', remove_word w (Some c) s = (Ok (), s') ∧
         categories s' = categories s ∧
         document_count s' = document_count s ∧
         total_document_count s' = total_document_count s ∧
         ∀ t c', word_count t c' s'
                 = if decide (t = w ∧ c' = c) then Ok 0 else word_count t c' s).
Proof.
  intros Hk Hne. unfold remove_word. rewrite truthy_arg_nonempty by done. split.
  - intros Hc. apply pop_word_missing. by apply lookup_missing_category.
  - intros Hc. destruct (proj1 (keys_wm _ Hk c) Hc) as [d Hd].
    eexists. split; [by apply (pop_word_ok _ _ _ d)|]. simpl.
    split; [done|]. split; [done|]. split; [done|].
    intros t c'. unfold word_count, getitem. simpl.
    destruct (decide (c' = c)) as [->|Hc'].
    + rewrite lookup_insert_eq, Hd. simpl.
      destruct (decide (t = w)) as [->|Ht].
      * rewrite decide_True by done. by rewrite lookup_delete_eq.
      * rewrite decide_False by (by intros [? _]).
        by rewrite lookup_delete_ne.
    + rewrite lookup_insert_ne by done.
      by rewrite decide_False by (by intros [_ ?]).
Qed.

Lemma remove_word_from_one_category_witness :
  keys_ok free_model ∧ "spam" ≠ EmptyString ∧
  ("spam" ∈ categories free_model →
   ∃ s', remove_word "free" (Some "spam") free_model = (Ok (), s') ∧
         categories s' = categories free_model ∧
         document_count s' = document_count free_model ∧
         total_document_count s' = total_document_count free_model ∧
         ∀ t c', word_count t c' s'
                 = if decide (t = "free" ∧ c' = "spam") then Ok 0
                   else word_count t c' free_model).
Proof.
  assert (Hk : keys_ok free_model).
  { apply (trained_bounded (H := space_tokenizer)
             [("free money", "spam"); ("free lunch", "ham")] ["spam"; "ham"]).
    vm_compute. reflexivity. }
  assert (Hne : "spam" ≠ EmptyString) by done.
  split; [exact Hk|]. split; [exact Hne|].
  exact (proj2 (remove_word_from_one_category "free" "spam" free_model Hk Hne)).
Defined.

(** X5: [remove_word] is idempotent: a second call with the same
    arguments gives the same result as the first and leaves the state the
    first call left. *)
Theorem remove_word_idempotent (w : string) (category : option string)
    (s : model) :
  keys_ok s →
  remove_word w category (remove_word w category s).2
  = remove_word w category s.
Proof.
  intros Hk. destruct (truthy_arg category) as [c|] eqn:Hcat.
  - unfold remove_word. rewrite Hcat.
    destruct (word_memo s !! c) as [d|] eqn:Hd.
    + rewrite (pop_word_ok w c s d) by done. simpl.
      rewrite (pop_word_ok _ _ _ (delete w d)) by (simpl; apply lookup_insert_eq).
      simpl. by rewrite insert_insert_eq, delete_delete_eq.
    + rewrite (pop_word_missing w c s) by done. simpl. by apply pop_word_missing.
  - rewrite (remove_word_all_ok w category s) by done. simpl.
    rewrite remove_word_all_ok; [|by apply set_word_memo_keys_ok;
      [|intros c; rewrite lookup_fmap, fmap_is_Some]|done].
    simpl. rewrite !delete_fmap_prune, prune_prune. by rewrite union_idemp_L.
Qed.

Lemma remove_word_idempotent_witness :
  keys_ok free_model ∧
  remove_word "free" None (remove_word "free" None free_model).2
  = remove_word "free" None free_model.
Proof.
  assert (Hk : keys_ok free_model).
  { apply (trained_bounded (H := space_tokenizer)
             [("free money", "spam"); ("free lunch", "ham")] ["spam"; "ham"]).
    vm_compute. reflexivity. }
  split; [exact Hk|].
  exact (remove_word_idempotent "free" None free_model Hk).
Defined.

(** X6: removing a word that no mapping holds is not an error and changes
    nothing. *)
Theorem remove_absent_word_changes_nothing (w : string)
    (category : option string) (s : model) :
  keys_ok s → (∀ c d, word_memo s !! c = Some d → d !! w = None) →
  (remove_word w category s).2 = s ∧
  (truthy_arg category = None → remove_word w category s = (Ok (), s)).
Proof.
  intros Hk Habs.
  assert (Hall : delete w <$> word_memo s = word_memo s).
  { apply map_eq. intros c. rewrite lookup_fmap.
    destruct (word_memo s !! c) as [d|] eqn:Hd; simpl; [|done].
    by rewrite delete_id by by apply (Habs c). }
  split.
  - destruct (truthy_arg category) as [c|] eqn:Hcat.
    + unfold remove_word. rewrite Hcat.
      destruct (word_memo s !! c) as [d|] eqn:Hd.
      * rewrite (pop_word_ok _ _ _ d) by done. simpl.
        rewrite delete_id by by apply (Habs c). by apply set_word_memo_id.
      * by rewrite pop_word_missing.
    + rewrite remove_word_all_ok by done. simpl. rewrite Hall. by destruct s.
  - intros Hcat. rewrite remove_word_all_ok by done. rewrite Hall.
    by destruct s.
Qed.

Lemma remove_absent_word_changes_nothing_witness :
  keys_ok spam_ham ∧
  (∀ c d, word_memo spam_ham !! c = Some d → d !! "lunch" = None) ∧
  (remove_word "lunch" None spam_ham).2 = spam_ham.
Proof.
  assert (Hk : keys_ok spam_ham) by apply spam_ham_wf.
  assert (Habs : ∀ c d, word_memo spam_ham !! c = Some d → d !! "lunch" = None).
  { assert (Hall : map_Forall (λ _ (d : gmap string Z), d !! "lunch" = None)
                     (word_memo spam_ham)) by compute_done.
    intros c d Hd. by apply (Hall c d). }
  split; [exact Hk|]. split; [exact Habs|].
  exact (proj1 (remove_absent_word_changes_nothing "lunch" None spam_ham Hk Habs)).
Defined.

(** X7: adding a word that a category does not hold gives it count 1, and
    removing it from that category afterwards restores the state. *)
Theorem add_then_remove_restores (w c : string) (s : model)
    (d : gmap string Z) :
  c ≠ EmptyString → word_memo s !! c = Some d → d !! w = None →
  ∃ s1, add_word w c s = (Ok (), s1) ∧
        word_count w c s1 = Ok 1 ∧
        remove_word w (Some c) s1 = (Ok (), s).
Proof.
  intros Hne Hd Hw. eexists. split; [by apply (add_word_ok _ _ _ d)|].
  unfold incr_word. rewrite Hw. simpl. split.
  - unfold word_count, getitem. simpl.
    by rewrite lookup_insert_eq; simpl; rewrite lookup_insert_eq.
  - unfold remove_word. rewrite truthy_arg_nonempty by done.
    rewrite (pop_word_ok _ _ _ (<[w := 1]> d)) by (simpl; apply lookup_insert_eq).
    simpl. rewrite insert_insert_eq, delete_insert_id by done.
    rewrite insert_id by done. by destruct s.
Qed.

Lemma add_then_remove_restores_witness :
  "ham" ≠ EmptyString ∧
  (∃ d, word_memo spam_ham !! "ham" = Some d ∧ d !! "lunch" = None) ∧
  ∃ s1, add_word "lunch" "ham" spam_ham = (Ok (), s1) ∧
        word_count "lunch" "ham" s1 = Ok 1 ∧
        remove_word "lunch" (Some "ham") s1 = (Ok (), spam_ham).
Proof.
  assert (Hne : "ham" ≠ EmptyString) by done.
  set (d := default ∅ (word_memo spam_ham !! "ham")).
  assert (Hd : word_memo spam_ham !! "ham" = Some d) by (vm_compute; reflexivity).
  assert (Hw : d !! "lunch" = None) by (vm_compute; reflexivity).
  split; [exact Hne|]. split; [by exists d|].
  exact (add_then_remove_restores "lunch" "ham" spam_ham d Hne Hd Hw).
Defined.

(** ** The estimators as probabilities *)

Lemma frac_bounds n d :
  0 ≤ n ≤ d → 0 < d →
  (0 <= inject_Z n / inject_Z d)%Q ∧ (inject_Z n / inject_Z d <= 1)%Q.
Proof.
  intros Hn Hd. destruct d as [|p|p]; [lia| |lia].
  unfold Qle. simpl. rewrite !Pos.mul_1_l. split; lia.
Qed.

Lemma frac_pos n d : 0 < n → 0 < d → (0 < inject_Z n / inject_Z d)%Q.
Proof.
  intros Hn Hd. destruct d as [|p|p]; [lia| |lia].
  unfold Qlt. simpl. lia.
Qed.

Lemma frac_zero d : (inject_Z 0 / inject_Z d == 0)%Q.
Proof. unfold Qdiv. simpl. apply Qmult_0_l. Qed.

Lemma sumZ_le {A : Type} (f g : A → Z) l :
  (∀ x, x ∈ l → f x ≤ g x) → sumZ f l ≤ sumZ g l.
Proof.
  induction l as [|x l IH]; intros Hfg; simpl; [done|].
  assert (f x ≤ g x) by (apply Hfg; left).
  assert (sumZ f l ≤ sumZ g l) by (apply IH; intros y Hy; apply Hfg; by right).
  lia.
Qed.

Lemma sumZ_elem_le {A : Type} (f : A → Z) l c :
  (∀ x, x ∈ l → 0 ≤ f x) → c ∈ l → f c ≤ sumZ f l.
Proof.
  induction l as [|x l IH]; intros Hf Hc; simpl; [by apply elem_of_nil in Hc|].
  assert (0 ≤ f x) by (apply Hf; left).
  assert (0 ≤ sumZ f l) by (apply sumZ_nonneg; intros y Hy; apply Hf; by right).
  apply elem_of_cons in Hc as [->|Hc]; [lia|].
  assert (f c ≤ sumZ f l); [|lia].
  apply IH; [|done]. intros y Hy. apply Hf. by right.
Qed.

Lemma sumZ_pos_exists {A : Type} (f : A → Z) l :
  0 < sumZ f l → ∃ c, c ∈ l ∧ 0 < f c.
Proof.
  induction l as [|x l IH]; simpl; [lia|]. intros Hpos.
  destruct (decide (0 < f x)) as [Hx|Hx].
  - exists x. split; [left|done].
  - destruct IH as (c & Hc & Hfc); [lia|]. exists c. split; [by right|done].
Qed.

Lemma wf_dc_nonneg s c : wf s → 0 ≤ dc s c.
Proof. intros Hwf. pose proof (wf_bound _ Hwf EmptyString c). lia. Qed.

Lemma wf_dc_le_total s c : wf s → c ∈ categories s → dc s c ≤ total_document_count s.
Proof.
  intros Hwf Hc. rewrite <- (wf_total _ Hwf).
  apply sumZ_elem_le; [|done]. intros x _. by apply wf_dc_nonneg.
Qed.

Lemma wf_marginal_le_total s t :
  wf s → 0 ≤ sumZ (wc s t) (categories s) ≤ total_document_count s.
Proof.
  intros Hwf. split.
  - apply sumZ_nonneg. intros c _. apply (wf_bound _ Hwf).
  - rewrite <- (wf_total _ Hwf). apply sumZ_le. intros c _.
    apply (wf_bound _ Hwf).
Qed.

(** X8: on a trained, well-formed model the three estimators return
    numbers between 0 and 1. *)
Theorem estimators_in_unit_interval (t c : string) (s : model) :
  wf s → 0 < total_document_count s → c ∈ categories s →
  ∃ p l m,
    category_probability c s = Ok p ∧
    word_probability_category t c s = Ok l ∧
    word_probability t s = Ok m ∧
    (0 <= p)%Q ∧ (p <= 1)%Q ∧ (0 <= l)%Q ∧ (l <= 1)%Q ∧
    (0 <= m)%Q ∧ (m <= 1)%Q.
Proof.
  intros Hwf Ht Hc. assert (total_document_count s ≠ 0) by lia.
  eexists _, _, _.
  split; [by apply category_probability_pure|].
  split; [apply word_probability_category_pure; [apply Hwf|done]|].
  split; [apply word_probability_pure; [apply Hwf|done]|].
  assert (Hp := frac_bounds (dc s c) (total_document_count s)).
  assert (Hm := frac_bounds (sumZ (wc s t) (categories s)) (total_document_count s)).
  split; [apply Hp; [split; [by apply wf_dc_nonneg|by apply wf_dc_le_total]|done]|].
  split; [apply Hp; [split; [by apply wf_dc_nonneg|by apply wf_dc_le_total]|done]|].
  unfold wordLikelihoodGivenCategory. case_decide as Hpos.
  - assert (Hl := frac_bounds (wc s t c) (dc s c) (wf_bound _ Hwf t c) Hpos).
    split; [apply Hl|]. split; [apply Hl|].
    split; apply Hm; (by apply wf_marginal_le_total) || done.
  - split; [done|]. split; [done|].
    split; apply Hm; (by apply wf_marginal_le_total) || done.
Qed.

Lemma estimators_in_unit_interval_witness :
  wf spam_ham ∧ 0 < total_document_count spam_ham ∧
  "spam" ∈ categories spam_ham ∧
  ∃ p l m,
    category_probability "spam" spam_ham = Ok p ∧
    word_probability_category "free" "spam" spam_ham = Ok l ∧
    word_probability "free" spam_ham = Ok m ∧
    (0 <= p)%Q ∧ (p <= 1)%Q ∧ (0 <= l)%Q ∧ (l <= 1)%Q ∧
    (0 <= m)%Q ∧ (m <= 1)%Q.
Proof.
  assert (Ht : 0 < total_document_count spam_ham) by (vm_compute; reflexivity).
  assert (Hc : "spam" ∈ categories spam_ham) by compute_done.
  split; [exact spam_ham_wf|]. split; [exact Ht|]. split; [exact Hc|].
  exact (estimators_in_unit_interval "free" "spam" spam_ham spam_ham_wf Ht Hc).
Defined.

(** ** The sign of the score *)

Section score_sign.
Context `{Rounding}.

Lemma rounded_prior_nonneg s c :
  wf s → 0 < total_document_count s → (0 <= rounded_prior s c)%Q.
Proof.
  intros Hwf Ht. unfold rounded_prior. apply rnd_nonneg.
  destruct (total_document_count s) as [|p|p] eqn:E; [lia| |lia].
  pose proof (wf_dc_nonneg s c Hwf).
  unfold Qle. simpl. rewrite !Z.mul_1_r. lia.
Qed.

Lemma rounded_prior_zero s c : dc s c = 0 → (rounded_prior s c == 0)%Q.
Proof. intros Hz. unfold rounded_prior. rewrite Hz. apply rnd_zero, frac_zero. Qed.

Lemma rounded_score_step_nonneg s c acc t :
  (0 <= acc)%Q → (0 <= rounded_score_step s c acc t)%Q.
Proof.
  intros Hacc. unfold rounded_score_step.
  destruct (Qgtb (rounded_marginal s t) 0) eqn:Em; [|done].
  destruct (Qgtb (rounded_likelihood s t c) 0) eqn:El; [|done].
  simpl. unfold fmul. apply rnd_nonneg.
  apply Qgtb_lt in Em. apply Qgtb_lt in El.
  apply Qmult_le_0_compat; [done|]. apply rnd_nonneg.
  apply Qlt_le_weak. unfold Qdiv.
  apply Qmult_lt_0_compat; [done|]. by apply Qinv_lt_0_compat.
Qed.

Lemma rounded_product_nonneg s c bag acc :
  (0 <= acc)%Q → (0 <= foldl (rounded_score_step s c) acc bag)%Q.
Proof.
  revert acc. induction bag as [|t bag IH]; intros acc Hacc; simpl; [done|].
  by apply IH, rounded_score_step_nonneg.
Qed.

Lemma rounded_score_sign s bag c :
  wf s → 0 < total_document_count s →
  (0 <= rounded_score s bag c)%Q ∧ (dc s c = 0 → (rounded_score s bag c == 0)%Q).
Proof.
  intros Hwf Ht. unfold rounded_score, fmul. split.
  - apply rnd_nonneg. apply Qmult_le_0_compat.
    + by apply rounded_product_nonneg.
    + by apply rounded_prior_nonneg.
  - intros Hz. apply rnd_zero. rewrite (rounded_prior_zero s c Hz).
    apply Qmult_0_r.
Qed.


Context `{Tokenizer}.

Lemma classify_result text s :
  wf s → categories s ≠ [] → 0 < total_document_count s →
  ∃ c v, classify text s = Ok (c, v) ∧ c ∈ categories s ∧ (0 <= v)%Q ∧
         ((0 < v)%Q → v = rounded_score s (tokenize text) c ∧ 0 < dc s c).
Proof.
  intros Hwf Hne Htot. assert (Ht : total_document_count s ≠ 0) by lia.
  destruct (categories s) as [|first rest] eqn:Hcats; [done|].
  pose proof (classify_rounded text s first rest Hwf Ht Hcats) as Hcl.
  rewrite Hcats in Hcl.
  destruct (foldl _ _ _) as [c v] eqn:Hr in Hcl.
  destruct (argmax_spec _ _ _ _ _ Hr) as (Hge & _ & Hcase). simpl in *.
  exists c, v. split; [done|].
  destruct Hcase as [[Hrv _]|(pre & post & Hl & Hvc & _ & _)].
  - injection Hrv as -> ->. split; [left|]. split; [done|].
    intros Hlt. by apply Qlt_irrefl in Hlt.
  - split; [rewrite Hl; apply elem_of_app; right; left|].
    split; [done|]. intros Hpos. split; [done|].
    destruct (decide (0 < dc s c)) as [Hd|Hd]; [done|].
    assert (Hz : dc s c = 0) by (pose proof (wf_dc_nonneg s c Hwf); lia).
    apply (rounded_score_sign s (tokenize text) c Hwf Htot) in Hz.
    rewrite Hvc, Hz in Hpos. by apply Qlt_irrefl in Hpos.
Qed.

(** X11: whatever the rounding, on a well-formed model with at least one
    training document [classify] returns a configured category and a
    score that is not negative; when the score is strictly positive, the
    category has received a training document and the score is that
    category's [text_likelihood]. *)
Theorem classify_positive_score_is_trained (text : string) (s : model) :
  wf s → categories s ≠ [] → 0 < total_document_count s →
  ∃ c v, classify text s = Ok (c, v) ∧ c ∈ categories s ∧ (0 <= v)%Q ∧
         ((0 < v)%Q →
          text_likelihood (tokenize text) c s = Ok v ∧
          ∃ d, getitem (document_count s) c = Ok d ∧ 0 < d).
Proof.
  intros Hwf Hne Ht.
  destruct (classify_result text s Hwf Hne Ht) as (c & v & Hcl & Hc & Hge & Hpos).
  exists c, v. split; [done|]. split; [done|]. split; [done|].
  intros Hlt. destruct (Hpos Hlt) as [Hv Hd]. split.
  - rewrite Hv. apply text_likelihood_rounded; [done|lia|done].
  - exists (dc s c). split; [apply getitem_dc; [apply Hwf|done]|done].
Qed.



End score_sign.


Lemma classify_positive_score_is_trained_witness :
  wf spam_ham ∧ categories spam_ham ≠ [] ∧ 0 < total_document_count spam_ham ∧
  ∃ c v, @classify space_tokenizer binary64 "agenda lunch" spam_ham = Ok (c, v) ∧
         c ∈ categories spam_ham ∧ (0 <= v)%Q ∧
         ((0 < v)%Q →
          @text_likelihood binary64 (tokenize "agenda lunch") c spam_ham = Ok v ∧
          ∃ d, getitem (document_count spam_ham) c = Ok d ∧ 0 < d).
Proof.
  assert (Hne : categories spam_ham ≠ []) by done.
  assert (Ht : 0 < total_document_count spam_ham) by (vm_compute; reflexivity).
  split; [exact spam_ham_wf|]. split; [exact Hne|]. split; [exact Ht|].
  exact (@classify_positive_score_is_trained binary64 space_tokenizer
           "agenda lunch" spam_ham spam_ham_wf Hne Ht).
Defined.


(** ** Tokens without evidence *)

Lemma not_informative_without_count s c t :
  wc s t c = 0 → informative s c t = false.
Proof.
  intros Hz. unfold informative.
  assert (Qgtb (wordLikelihoodGivenCategory s t c) 0 = false) as ->;
    [|by rewrite andb_false_r].
  apply Qgtb_false_le. unfold wordLikelihoodGivenCategory.
  case_decide; [|done]. rewrite Hz, frac_zero. done.
Qed.

Lemma score_of_skip s c pre t post :
  informative s c t = false →
  score_of s (pre ++ t :: post) c = score_of s (pre ++ post) c.
Proof.
  intros Hni. unfold score_of. rewrite !foldl_app. simpl.
  unfold score_step at 2. by rewrite Hni.
Qed.

(** X13: a token whose count in a category is 0 (never seen there, or
    never seen at all) does not change that category's score, wherever it
    stands in the bag: absent evidence is neither rewarded nor penalised. *)
Theorem token_without_count_is_neutral (pre post : list string) (t c : string)
    (s : model) :
  wf s → total_document_count s ≠ 0 → c ∈ categories s →
  word_count t c s = Ok 0 →
  text_likelihood (pre ++ t :: post) c s = text_likelihood (pre ++ post) c s.
Proof.
  intros Hwf Ht Hc Hz.
  rewrite word_count_pure in Hz by (done || apply Hwf). injection Hz as Hz.
  rewrite !text_likelihood_pure by done. f_equal.
  by apply score_of_skip, not_informative_without_count.
Qed.

Lemma token_without_count_is_neutral_witness :
  wf spam_ham ∧ total_document_count spam_ham ≠ 0 ∧
  "spam" ∈ categories spam_ham ∧
  word_count "agenda" "spam" spam_ham = Ok 0 ∧
  text_likelihood (["free"] ++ "agenda" :: ["money"]) "spam" spam_ham
  = text_likelihood (["free"] ++ ["money"]) "spam" spam_ham.
Proof.
  assert (Ht : total_document_count spam_ham ≠ 0) by (vm_compute; discriminate).
  assert (Hc : "spam" ∈ categories spam_ham) by compute_done.
  assert (Hz : word_count "agenda" "spam" spam_ham = Ok 0) by (vm_compute; reflexivity).
  split; [exact spam_ham_wf|]. split; [exact Ht|]. split; [exact Hc|].
  split; [exact Hz|].
  exact (token_without_count_is_neutral ["free"] ["money"] "agenda" "spam"
           spam_ham spam_ham_wf Ht Hc Hz).
Defined.

(** ** More on [cleanup] *)

(** X14: [cleanup] is idempotent: when a call returns, a second call with
    the same threshold removes nothing and leaves the state as it is. *)
Theorem cleanup_idempotent (threshold : Q) (s s' : model) (n : Z) :
  keys_ok s → cleanup threshold s = (Ok n, s') →
  cleanup threshold s' = (Ok 0, s').
Proof.
  intros Hk Hrun.
  destruct (decide (total_document_count s = 0)) as [Hz|Ht].
  { pose proof Hrun as Hrun'.
    apply cleanup_untrained in Hrun' as [-> ->]; done. }
  rewrite cleanup_ok in Hrun by done. injection Hrun as _ <-.
  rewrite cleanup_ok by (by apply prune_keys_ok || done). simpl.
  rewrite heavy_in_prune, difference_diag_L, size_empty, prune_empty. done.
Qed.

Lemma cleanup_idempotent_witness :
  keys_ok free_model ∧
  cleanup 1%Q free_model = (Ok 1, (cleanup 1%Q free_model).2) ∧
  cleanup 1%Q (cleanup 1%Q free_model).2 = (Ok 0, (cleanup 1%Q free_model).2).
Proof.
  assert (Hk : keys_ok free_model).
  { apply (trained_bounded (H := space_tokenizer)
             [("free money", "spam"); ("free lunch", "ham")] ["spam"; "ham"]).
    vm_compute. reflexivity. }
  assert (Hrun : cleanup 1%Q free_model = (Ok 1, (cleanup 1%Q free_model).2))
    by (vm_compute; reflexivity).
  split; [exact Hk|]. split; [exact Hrun|].
  exact (cleanup_idempotent 1%Q free_model _ 1 Hk Hrun).
Defined.

Lemma heavy_above_one threshold s t :
  wf s → 0 < total_document_count s → (1 < threshold)%Q →
  heavy threshold s t = false.
Proof.
  intros Hwf Ht Hthr. unfold heavy, Qgeb.
  destruct (Qle_bool _ _) eqn:E; [|done]. apply Qle_bool_iff in E.
  destruct (frac_bounds (sumZ (wc s t) (categories s)) (total_document_count s))
    as [_ Hle]; [by apply wf_marginal_le_total|done|].
  exfalso. apply (Qlt_irrefl 1).
  apply Qlt_le_trans with threshold; [done|].
  by apply Qle_trans with (marginalWordProbability s t).
Qed.

(** X15: on a trained, well-formed model no marginal probability exceeds
    1, so [cleanup] with a threshold above 1 removes nothing. *)
Theorem cleanup_above_one_removes_nothing (threshold : Q) (s : model) :
  wf s → 0 < total_document_count s → (1 < threshold)%Q →
  cleanup threshold s = (Ok 0, s).
Proof.
  intros Hwf Ht Hthr. rewrite cleanup_ok by (apply Hwf || lia).
  assert (heavy_in threshold s (categories s) = ∅) as ->.
  { apply set_eq. intros t. rewrite elem_of_heavy_in, elem_of_empty.
    rewrite heavy_above_one by done. split; [by intros [? _]|done]. }
  rewrite prune_empty, size_empty. simpl. f_equal. by destruct s.
Qed.

Lemma free_model_wf : wf free_model.
Proof.
  apply (train_all_wf (H := space_tokenizer)
           [("free money", "spam"); ("free lunch", "ham")]
           (init ["spam"; "ham"])).
  - apply init_wf. compute_done.
  - vm_compute. reflexivity.
Qed.

Lemma cleanup_above_one_removes_nothing_witness :
  wf free_model ∧ 0 < total_document_count free_model ∧ (1 < 11 # 10)%Q ∧
  cleanup (11 # 10)%Q free_model = (Ok 0, free_model).
Proof.
  assert (Ht : 0 < total_document_count free_model) by (vm_compute; reflexivity).
  assert (Hthr : (1 < 11 # 10)%Q) by (vm_compute; reflexivity).
  split; [exact free_model_wf|]. split; [exact Ht|]. split; [exact Hthr|].
  exact (cleanup_above_one_removes_nothing (11 # 10)%Q free_model
           free_model_wf Ht Hthr).
Defined.

Lemma heavy_nonpositive threshold s t :
  wf s → 0 < total_document_count s → (threshold <= 0)%Q →
  heavy threshold s t = true.
Proof.
  intros Hwf Ht Hthr. apply heavy_iff.
  destruct (frac_bounds (sumZ (wc s t) (categories s)) (total_document_count s))
    as [Hge _]; [by apply wf_marginal_le_total|done|].
  by apply Qle_trans with 0%Q.
Qed.

(** X16: on a trained, well-formed model [cleanup] with a threshold of 0
    or less removes the whole vocabulary: it reports the vocabulary size,
    and afterwards the vocabulary is empty and every count reads 0. *)
Theorem cleanup_nonpositive_removes_everything (threshold : Q) (s : model) :
  wf s → 0 < total_document_count s → (threshold <= 0)%Q →
  ∃ n s', cleanup threshold s = (Ok n, s') ∧
          vocab_size None s = Ok n ∧
          vocab_size None s' = Ok 0 ∧
          ∀ t c, c ∈ categories s → word_count t c s' = Ok 0.
Proof.
  intros Hwf Ht Hthr. pose proof (wf_keys _ Hwf) as Hk.
  eexists _, _. split; [apply cleanup_ok; [done|lia]|].
  assert (HR : heavy_in threshold s (categories s) = vocab_in s (categories s)).
  { apply set_eq. intros t. rewrite elem_of_heavy_in.
    rewrite heavy_nonpositive by done. tauto. }
  rewrite HR.
  assert (Hk' : keys_ok (set_word_memo
                  (prune (vocab_in s (categories s)) (word_memo s)) s))
    by (by apply prune_keys_ok).
  split; [by apply vocab_size_all_pure|]. split.
  - rewrite vocab_size_all_pure by done. simpl.
    by rewrite vocab_in_prune, difference_diag_L, size_empty.
  - intros t c Hc. rewrite word_count_pure by done. f_equal.
    rewrite wc_prune. case_decide as Hin; [done|].
    by apply wc_outside_vocab.
Qed.

Lemma cleanup_nonpositive_removes_everything_witness :
  wf free_model ∧ 0 < total_document_count free_model ∧ (0 <= 0)%Q ∧
  ∃ n s', cleanup 0%Q free_model = (Ok n, s') ∧
          vocab_size None free_model = Ok n ∧
          vocab_size None s' = Ok 0 ∧
          ∀ t c, c ∈ categories free_model → word_count t c s' = Ok 0.
Proof.
  assert (Ht : 0 < total_document_count free_model) by (vm_compute; reflexivity).
  assert (Hthr : (0 <= 0)%Q) by (vm_compute; discriminate).
  split; [exact free_model_wf|]. split; [exact Ht|]. split; [exact Hthr|].
  exact (cleanup_nonpositive_removes_everything 0%Q free_model
           free_model_wf Ht Hthr).
Defined.

(** X17: on a freshly constructed model [cleanup] finds no token, so it
    returns 0 without dividing by the (zero) document total, whereas
    [classify] raises there. *)
Theorem cleanup_fresh_model_returns_zero (threshold : Q) (cats : list string) :
  cleanup threshold (init cats) = (Ok 0, init cats).
Proof.
  destruct (init_spec cats) as (Hc & _ & Hw & _).
  unfold cleanup, mbind, M_bind, read.
  assert (Hloop : ∀ l n, (∀ c, c ∈ l → c ∈ cats) →
    foldlMM (cleanup_category threshold) n l (init cats) = (Ok n, init cats)).
  { induction l as [|c l IH]; intros n Hl; [done|].
    cbn [foldlMM]. unfold mbind, M_bind at 1.
    assert (cleanup_category threshold n c (init cats) = (Ok n, init cats)) as ->.
    { unfold cleanup_category, mbind, M_bind, read, getitem.
      rewrite Hw, decide_True by (apply Hl; left).
      unfold scan_category, dict_keys. rewrite map_to_list_empty. simpl.
      by rewrite elements_empty. }
    apply IH. intros c' Hc'. apply Hl. by right. }
  apply Hloop. intros c. by rewrite Hc.
Qed.

(** ** Counts along a run *)

Section monotone.
Context `{Tokenizer}.

(** X18: a call never moves a count the wrong way, whether it returns or
    raises: after [train] every count is at least what it was, after
    [remove_word] or [cleanup] it is at most what it was and not
    negative. *)
Theorem counts_monotone (o : op) (s : model) (t c : string) (n : Z) :
  bounded s → word_count t c s = Ok n →
  ∃ n', word_count t c (run_op o s) = Ok n' ∧
        match o with
        | Train _ _ => n ≤ n'
        | RemoveWord _ _ | Cleanup _ => 0 ≤ n' ≤ n
        end.
Proof.
  intros Hb Hn. pose proof Hb as [Hk Hbound].
  apply word_count_Ok_inv in Hn as [Hc ->]; [|done].
  destruct (run_op_bounded o s Hb) as [[Hk' Hbound'] Hcs].
  exists (wc (run_op o s) t c).
  split; [apply word_count_pure; [done|by rewrite Hcs]|].
  destruct o as [text c0|w category|threshold]; simpl.
  - destruct (decide (c0 ∈ categories s)) as [Hc0|Hc0].
    + destruct (train_effect text c0 s Hk Hc0) as (s1 & E & _ & _ & _ & _ & Hwc).
      rewrite E. simpl. rewrite Hwc. case_decide; lia.
    + rewrite train_invalid_category by done. simpl. lia.
  - pose proof (Hbound t c).
    destruct (pruned_wc _ _ (remove_word_pruned w category s) t c) as [->| ->]; lia.
  - pose proof (Hbound t c).
    destruct (pruned_wc _ _ (cleanup_pruned threshold s) t c) as [->| ->]; lia.
Qed.

End monotone.

Lemma counts_monotone_witness :
  bounded free_model ∧ word_count "free" "ham" free_model = Ok 1 ∧
  ∃ n', word_count "free" "ham" (run_op (Cleanup 1%Q) free_model) = Ok n' ∧
        0 ≤ n' ≤ 1.
Proof.
  assert (Hb : bounded free_model).
  { apply (trained_bounded (H := space_tokenizer)
             [("free money", "spam"); ("free lunch", "ham")] ["spam"; "ham"]).
    vm_compute. reflexivity. }
  assert (Hn : word_count "free" "ham" free_model = Ok 1) by (vm_compute; reflexivity).
  split; [exact Hb|]. split; [exact Hn|].
  exact (counts_monotone (Cleanup 1%Q) free_model "free" "ham" 1 Hb Hn).
Defined.

(** ** Totals of word counts *)

Lemma sumZ_perm {A : Type} (f : A → Z) l l' : l ≡ₚ l' → sumZ f l = sumZ f l'.
Proof. induction 1; simpl; lia. Qed.

Lemma dict_values_sum_sumZ d :
  dict_values_sum d = sumZ (λ kv : string * Z, kv.2) (map_to_list d).
Proof. unfold dict_values_sum. by rewrite foldl_add_sumZ. Qed.

Lemma dict_values_sum_insert_fresh d w n :
  d !! w = None → dict_values_sum (<[w := n]> d) = n + dict_values_sum d.
Proof.
  intros Hw. rewrite !dict_values_sum_sumZ.
  by rewrite (sumZ_perm _ _ _ (map_to_list_insert d w n Hw)).
Qed.

Lemma dict_values_sum_incr w d :
  dict_values_sum (incr_word w d) = dict_values_sum d + 1.
Proof.
  unfold incr_word. destruct (d !! w) as [m|] eqn:Hw; simpl.
  - rewrite <- (insert_delete_eq d).
    rewrite dict_values_sum_insert_fresh by apply lookup_delete_eq.
    rewrite <- (insert_delete_id d w m) at 2 by done.
    rewrite dict_values_sum_insert_fresh by apply lookup_delete_eq. lia.
  - rewrite dict_values_sum_insert_fresh by done. lia.
Qed.

Lemma dict_values_sum_incr_words bag d :
  dict_values_sum (incr_words bag d)
  = dict_values_sum d + Z.of_nat (length bag).
Proof.
  revert d. induction bag as [|w bag IH]; intros d.
  - simpl. lia.
  - change (incr_words (w :: bag) d) with (incr_words bag (incr_word w d)).
    rewrite IH, dict_values_sum_incr. simpl length. lia.
Qed.

Lemma total_word_count_all_pure s :
  keys_ok s →
  total_word_count None s
  = Ok (sumZ (λ c, dict_values_sum (default ∅ (word_memo s !! c))) (categories s)).
Proof.
  intros Hk. unfold total_word_count. simpl.
  rewrite (foldlM_pure _ (λ acc c,
             acc + dict_values_sum (default ∅ (word_memo s !! c)))).
  - by rewrite foldl_add_sumZ.
  - intros acc c Hc. apply (keys_wm _ Hk) in Hc as [d Hd].
    unfold getitem. by rewrite Hd.
Qed.

Section totals.
Context `{Tokenizer}.

(** X19: a [train] call adds the number of distinct tokens of the
    document to the total word count of the trained category and, on a
    model over distinct categories, to the total over all categories. *)
Theorem train_adds_tokens_to_totals (text c : string) (s : model) (n N : Z) :
  keys_ok s → NoDup (categories s) → c ∈ categories s → c ≠ EmptyString →
  total_word_count (Some c) s = Ok n → total_word_count None s = Ok N →
  ∃ s', train text c s = (Ok (), s') ∧
        total_word_count (Some c) s'
        = Ok (n + Z.of_nat (length (tokenize text))) ∧
        total_word_count None s'
        = Ok (N + Z.of_nat (length (tokenize text))).
Proof.
  intros Hk Hnd Hc Hne Hn HN.
  destruct (proj1 (keys_dc _ Hk c) Hc) as [k Hdc].
  destruct (proj1 (keys_wm _ Hk c) Hc) as [d Hd].
  destruct (train_effect text c s Hk Hc) as (s' & E & Hcs & Hk' & _).
  pose proof E as E'. rewrite (train_ok text c s k d) in E' by done.
  injection E' as Hs'.
  exists s'. split; [done|].
  unfold total_word_count in Hn |- *. rewrite truthy_arg_nonempty in * by done.
  unfold getitem in Hn |- *. rewrite Hd in Hn. simpl in Hn. injection Hn as <-.
  rewrite total_word_count_all_pure in HN by done. injection HN as <-.
  rewrite <- Hs'. simpl. rewrite lookup_insert_eq. simpl.
  split; [by rewrite dict_values_sum_incr_words|].
  change (foldlM _ 0 (categories s)) with
    (total_word_count None
       (Model (categories s)
              (<[c := incr_words (tokenize text) d]> (word_memo s))
              (<[c := k + 1]> (document_count s))
              (total_document_count s + 1))).
  rewrite total_word_count_all_pure by (by rewrite Hs'). simpl. f_equal.
  apply sumZ_update with c; [done|done|..].
  - rewrite lookup_insert_eq, Hd. simpl. apply dict_values_sum_incr_words.
  - intros c' Hc'. by rewrite lookup_insert_ne.
Qed.

End totals.

Lemma train_adds_tokens_to_totals_witness :
  keys_ok spam_ham ∧ NoDup (categories spam_ham) ∧
  "ham" ∈ categories spam_ham ∧ "ham" ≠ EmptyString ∧
  total_word_count (Some "ham") spam_ham = Ok 2 ∧
  total_word_count None spam_ham = Ok 5 ∧
  ∃ s', train "lunch agenda soon" "ham" spam_ham = (Ok (), s') ∧
        total_word_count (Some "ham") s'
        = Ok (2 + Z.of_nat (length (tokenize "lunch agenda soon"))) ∧
        total_word_count None s'
        = Ok (5 + Z.of_nat (length (tokenize "lunch agenda soon"))).
Proof.
  assert (Hk : keys_ok spam_ham) by apply spam_ham_wf.
  assert (Hnd : NoDup (categories spam_ham)) by apply spam_ham_wf.
  assert (Hc : "ham" ∈ categories spam_ham) by compute_done.
  assert (Hne : "ham" ≠ EmptyString) by done.
  assert (Hn : total_word_count (Some "ham") spam_ham = Ok 2)
    by (vm_compute; reflexivity).
  assert (HN : total_word_count None spam_ham = Ok 5)
    by (vm_compute; reflexivity).
  split; [exact Hk|]. split; [exact Hnd|]. split; [exact Hc|].
  split; [exact Hne|]. split; [exact Hn|]. split; [exact HN|].
  exact (train_adds_tokens_to_totals "lunch agenda soon" "ham" spam_ham 2 5
           Hk Hnd Hc Hne Hn HN).
Defined.

(** ** Vocabulary sizes *)

(** X20: the vocabulary of a configured (non-empty) category is part of
    the vocabulary of the whole store: its size is between 0 and the size
    [vocab_size] gives without a category, where a token held by several
    categories counts once. *)
Theorem vocab_size_of_category_le_all (c : string) (s : model) :
  keys_ok s → c ∈ categories s → c ≠ EmptyString →
  ∃ v V, vocab_size (Some c) s = Ok v ∧ vocab_size None s = Ok V ∧
         0 ≤ v ≤ V.
Proof.
  intros Hk Hc Hne. destruct (proj1 (keys_wm _ Hk c) Hc) as [d Hd].
  eexists _, _. split; [|split; [by apply vocab_size_all_pure|]].
  - unfold vocab_size. rewrite truthy_arg_nonempty by done.
    unfold getitem. rewrite Hd. simpl. done.
  - unfold dict_keys. rewrite length_fmap, length_map_to_list.
    rewrite <- (size_dom (D := gset string) d).
    assert (Hsub : dom d ⊆ vocab_in s (categories s)).
    { intros t Ht. apply elem_of_vocab_in. exists c, d.
      by apply elem_of_dom in Ht. }
    apply subseteq_size in Hsub. lia.
Qed.

Lemma vocab_size_of_category_le_all_witness :
  keys_ok free_model ∧ "spam" ∈ categories free_model ∧ "spam" ≠ EmptyString ∧
  ∃ v V, vocab_size (Some "spam") free_model = Ok v ∧
         vocab_size None free_model = Ok V ∧ 0 ≤ v ≤ V.
Proof.
  assert (Hk : keys_ok free_model) by apply free_model_wf.
  assert (Hc : "spam" ∈ categories free_model) by compute_done.
  assert (Hne : "spam" ≠ EmptyString) by done.
  split; [exact Hk|]. split; [exact Hc|]. split; [exact Hne|].
  exact (vocab_size_of_category_le_all "spam" free_model Hk Hc Hne).
Defined.

(** ** The empty string as a category *)




(** In [blank_ham] the mapping of the empty-string category holds 2
    tokens with total count 2; the answers for that category are those for
    the whole store, 4 and 3. *)
Example empty_string_category_aggregates :
  (dict_values_sum <$> word_memo blank_ham !! EmptyString) = Some 2 ∧
  (length ∘ dict_keys <$> word_memo blank_ham !! EmptyString) = Some 2%nat ∧
  total_word_count (Some EmptyString) blank_ham = Ok 4 ∧
  vocab_size (Some EmptyString) blank_ham = Ok 3.
Proof. repeat split; vm_compute; reflexivity. Qed.
